(** * A shallow embedding of [jsonpath.go] (package [jsonpath])

    The Go program evaluates a JSONPath-like query against a decoded
    generic tree ([interface{}] holding [nil], booleans, numbers, strings,
    [[]interface{}] and [map[string]interface{}]).  Every function of
    [jsonpath.go] that the properties below talk about is transcribed here,
    keeping its name, its control flow and its failure modes: a Go function
    returning [(v, err)] becomes a function into [outcome], whose
    constructors separate a normal return, an error return and a run-time
    panic.

    Go strings are byte strings; they are modelled by [string].  The source
    ranges over the runes of a string and appends [string(x)] to an
    accumulator; on ASCII text (and on any valid UTF-8 text, since every
    character the code tests for is ASCII) this is the byte-wise traversal
    used here.

    Two functions the package calls are not its own.  [deepcopy.Iface] is a
    parameter of [JsonPathLookup].  [go/types.Eval], which [cmp_any] uses to
    compare two operands, is modelled on the expressions [cmp_any] builds
    from plain texts and decimal literals. *)

From Stdlib Require Import String Ascii List ZArith QArith Bool Lia DecimalString.

Set Warnings "-register-all".
Import ListNotations.

Local Open Scope string_scope.
Local Open Scope Z_scope.

(** ** Results of Go calls *)

(** [strconv.NumError.Err] for [Atoi]: [ErrSyntax] or [ErrRange]. *)
Inductive num_err : Type := ErrSyntax | ErrRange.

(** One constructor per error value the package can return.  The comment
    gives the message of the [fmt.Errorf] (or [errors.New]) at that site. *)
Inductive error : Type :=
| ErrGetFromNullObj                              (* var ErrGetFromNullObj: "get attribute from null object" *)
| ErrRootInFront                                 (* "$ or @ should in front of path" *)
| ErrShouldStart                                 (* "should start with '$'" *)
| ErrTailLen (tail : string)                     (* "len(tail) should >=3, %v" *)
| ErrOneRange (tails : list string)              (* "only support one range(from, to): %v" *)
| NumError (num : string) (e : num_err)          (* strconv.Atoi: parsing %q: ... *)
| ErrEmptyIndex                                  (* "cannot index on empty slice" *)
| ErrRangeArgs                                   (* "range args length should be 2" *)
| ErrNotSupported                                (* "expression don't support in filter" *)
| ErrMultipleIndex                               (* "don't support multiple index in filter" *)
| ErrKeyNotFound (key : string)                  (* "key error: %s not found in object" *)
| ErrNotMap                                      (* "object is not map" *)
| ErrIndexRange (len idx : Z)                    (* "index out of range: len: %v, idx: %v" *)
| ErrNotSlice                                    (* "object is not Slice" *)
| ErrFromRange (len : Z) (frm : option Z)        (* "index [from] out of range: len: %v, from: %v" *)
| ErrToRange (len : Z) (to : option Z)           (* "index [to] out of range: len: %v, to: %v" *)
| ErrFilterKind                                  (* "don't support filter on this type: %v" *)
| ErrInvalidChar (idx : nat)                     (* "invalid char at %d: `%s`" *)
| ErrNotImplemented                              (* "not implemented yet" *)
| ErrOp                                          (* "op should only be <, <=, ==, >= and >" *)
| ErrEval                                        (* the error of go/types.Eval *)
| ErrNotBool.                                    (* "result should only be true or false" *)

(** Run-time panics of the Go runtime and of package [reflect]. *)
Inductive panic : Type :=
| PanicIndex          (* index out of range *)
| PanicSliceBounds    (* slice bounds out of range *)
| PanicNilType        (* method call on the nil [reflect.Type] *)
| PanicAssert         (* interface conversion: failed type assertion *)
| PanicReflectSlice.  (* reflect: slice index out of bounds *)

(** [Beyond] marks a call of [go/types.Eval] on an expression that lies
    outside the fragment of Go constant expressions modelled below. *)
Inductive outcome (A : Type) : Type :=
| Ok (a : A)
| Err (e : error)
| Panic (p : panic)
| Beyond.

Arguments Ok {A} a.
Arguments Err {A} e.
Arguments Panic {A} p.
Arguments Beyond {A}.

Definition bind {A B : Type} (m : outcome A) (k : A -> outcome B) : outcome B :=
  match m with
  | Ok a => k a
  | Err e => Err e
  | Panic p => Panic p
  | Beyond => Beyond
  end.

Notation "x <- m ;; k" := (bind m (fun x => k))
  (at level 61, m at next level, right associativity).

Notation "' pat <- m ;; k" := (bind m (fun x => let 'pat := x in k))
  (at level 61, pat pattern, m at next level, right associativity).

(** A partial runtime operation that panics with [p] when it is undefined. *)
Definition or_panic {A : Type} (p : panic) (o : option A) : outcome A :=
  match o with
  | Some a => Ok a
  | None => Panic p
  end.

(** ** Go strings and slices *)

Definition len (s : string) : Z := Z.of_nat (String.length s).

Definition str (c : ascii) : string := String c EmptyString.

(** [s[i]] *)
Definition byte_at (s : string) (i : Z) : outcome ascii :=
  if (0 <=? i) && (i <? len s)
  then or_panic PanicIndex (String.get (Z.to_nat i) s)
  else Panic PanicIndex.

(** [s[lo:hi]] *)
Definition slice (s : string) (lo hi : Z) : outcome string :=
  if (0 <=? lo) && (lo <=? hi) && (hi <=? len s)
  then Ok (String.substring (Z.to_nat lo) (Z.to_nat (hi - lo)) s)
  else Panic PanicSliceBounds.

(** [xs[len(xs)-1]] *)
Definition last_elem (xs : list string) : outcome string :=
  or_panic PanicIndex (nth_error xs (List.length xs - 1)).

Definition is_empty {A : Type} (xs : list A) : bool :=
  match xs with [] => true | _ => false end.

(** [xs[len(xs)-1]] panics on the empty slice: [len(xs)-1] is [-1]. *)
Definition last_token (xs : list string) : outcome string :=
  if is_empty xs then Panic PanicIndex else last_elem xs.

(** The builtin [append(xs, x)]. *)
Definition go_append {A : Type} (xs : list A) (x : A) : list A := (xs ++ [x])%list.

(** Package [strings]. *)
Module strings.

Fixpoint HasPrefix (s p : string) : bool :=
  match p, s with
  | EmptyString, _ => true
  | String b p', String a s' => Ascii.eqb a b && HasPrefix s' p'
  | String _ _, EmptyString => false
  end.

(** Byte index of the first occurrence of [sub] in [s], counted from
    [i]; [-1] when there is none. *)
Fixpoint index_from (i : Z) (s sub : string) : Z :=
  if HasPrefix s sub then i
  else match s with
       | EmptyString => -1
       | String _ s' => index_from (i + 1) s' sub
       end.

Definition Index (s sub : string) : Z := index_from 0 s sub.

Definition Contains (s sub : string) : bool := 0 <=? Index s sub.

Definition HasSuffix (s suf : string) : bool :=
  (String.length suf <=? String.length s)%nat
  && String.eqb (String.substring (String.length s - String.length suf)
                                  (String.length suf) s) suf.

Fixpoint TrimLeft (s : string) (c : ascii) : string :=
  match s with
  | String a s' => if Ascii.eqb a c then TrimLeft s' c else s
  | EmptyString => EmptyString
  end.

Fixpoint TrimRight (s : string) (c : ascii) : string :=
  match s with
  | EmptyString => EmptyString
  | String a s' =>
      match TrimRight s' c with
      | EmptyString => if Ascii.eqb a c then EmptyString else str a
      | t => String a t
      end
  end.

(** [strings.Trim(s, cutset)] for a cutset of one character. *)
Definition Trim (s : string) (c : ascii) : string := TrimRight (TrimLeft s c) c.

(** [strings.Split(s, sep)] for a separator of one character. *)
Fixpoint Split (s : string) (sep : ascii) : list string :=
  match s with
  | EmptyString => [EmptyString]
  | String a s' =>
      if Ascii.eqb a sep then EmptyString :: Split s' sep
      else match Split s' sep with
           | p :: ps => String a p :: ps
           | [] => [str a]
           end
  end.

End strings.

(** ** The tokenizer *)

(** The body of the [for idx, x := range query] loop of [tokenize], one
    character at a time.  The state is [(tokens, token)]; every branch of
    the source ends in [continue] or falls off the end of the body, so the
    result is the next state, unless the body returns an error or panics. *)
Definition tokenize_step (idx : nat) (x : ascii) (st : list string * string)
  : outcome (list string * string) :=
  let '(tokens, token) := st in
  let token := token ++ str x in
  if (idx =? 0)%nat then
    if (token =? "$")%string || (token =? "@")%string
    then Ok (go_append tokens token, "")
    else Err ErrShouldStart
  else if (token =? ".")%string then Ok (tokens, token)
  else if (token =? "..")%string then
    l <- last_token tokens ;;
    Ok (if negb (l =? "*")%string then go_append tokens "*" else tokens, ".")
  else if strings.Contains token "[" then
    if Ascii.eqb x "]" && negb (strings.HasSuffix token "\]") then
      c <- byte_at token 0 ;;
      if Ascii.eqb c "." then
        t <- slice token 1 (len token) ;;
        Ok (go_append tokens t, "")
      else Ok (go_append tokens token, "")
    else Ok (tokens, token)
  else
    if Ascii.eqb x "." then
      c <- byte_at token 0 ;;
      if Ascii.eqb c "." then
        t <- slice token 1 (len token - 1) ;;
        Ok (go_append tokens t, ".")
      else
        t <- slice token 0 (len token - 1) ;;
        Ok (go_append tokens t, ".")
    else Ok (tokens, token).

Fixpoint tokenize_loop (query : string) (idx : nat) (st : list string * string)
  : outcome (list string * string) :=
  match query with
  | EmptyString => Ok st
  | String x rest =>
      st' <- tokenize_step idx x st ;;
      tokenize_loop rest (S idx) st'
  end.

(** The code after the loop: the pending text becomes the last token. *)
Definition tokenize_finish (st : list string * string) : outcome (list string) :=
  let '(tokens, token) := st in
  if 0 <? len token then
    c <- byte_at token 0 ;;
    if Ascii.eqb c "." then
      token <- slice token 1 (len token) ;;
      if negb (token =? "*")%string then Ok (go_append tokens token)
      else
        l <- last_token tokens ;;
        if negb (l =? "*")%string then Ok (go_append tokens token) else Ok tokens
    else
      if negb (token =? "*")%string then Ok (go_append tokens token)
      else
        l <- last_token tokens ;;
        if negb (l =? "*")%string then Ok (go_append tokens token) else Ok tokens
  else Ok tokens.

Definition tokenize (query : string) : outcome (list string) :=
  st <- tokenize_loop query 0 ([], "") ;;
  tokenize_finish st.

(** ** [strconv.Atoi] *)

Definition min_int : Z := - 2 ^ 63.
Definition max_int : Z := 2 ^ 63 - 1.

Definition is_digit (c : ascii) : bool :=
  (48 <=? nat_of_ascii c)%nat && (nat_of_ascii c <=? 57)%nat.

Definition digit_val (c : ascii) : Z := Z.of_nat (nat_of_ascii c) - 48.

(** Value of a run of decimal digits; [None] when a character is no digit. *)
Fixpoint digits_val (acc : Z) (s : string) : option Z :=
  match s with
  | EmptyString => Some acc
  | String c s' =>
      if is_digit c then digits_val (acc * 10 + digit_val c) s' else None
  end.

(** [strconv.Atoi] on a 64-bit platform: an optional sign, then at least
    one decimal digit; a value outside [int] is a range error. *)
Definition Atoi (s : string) : outcome Z :=
  let '(neg, body) :=
    match s with
    | String "-" r => (true, r)
    | String "+" r => (false, r)
    | _ => (false, s)
    end in
  match body with
  | EmptyString => Err (NumError s ErrSyntax)
  | _ =>
      match digits_val 0 body with
      | None => Err (NumError s ErrSyntax)
      | Some n =>
          let v := if neg then - n else n in
          if (min_int <=? v) && (v <=? max_int) then Ok v
          else Err (NumError s ErrRange)
      end
  end.

(** ** The segment parser *)

(** The dynamic type and value of the [args interface{}] result. *)
Inductive Args : Type :=
| ArgsNil                              (* nil *)
| ArgsInts (xs : list Z)               (* []int *)
| ArgsRange (frm to : option Z)        (* [2]interface{}{frm, to}; None is nil *)
| ArgsString (s : string).             (* string *)

(** The four results [(op, key, args, err)] of [parse_token]; the source
    uses named results, so [err] may be set next to the other three. *)
Record parsed : Type := Parsed {
  p_op : string;
  p_key : string;
  p_args : Args;
  p_err : option error
}.

(** [if v, err = strconv.Atoi(s); err != nil { v = nil }]: the bound and
    the value left in [err]. *)
Definition atoi_bound (s : string) : outcome (option Z * option error) :=
  match Atoi s with
  | Ok n => Ok (Some n, None)
  | Err e => Ok (None, Some e)
  | Panic p => Panic p
  | Beyond => Beyond
  end.

(** The loop of the index branch: the first failing [Atoi] is returned. *)
Fixpoint parse_indexes (parts : list string) (res : list Z) : outcome (list Z) :=
  match parts with
  | [] => Ok res
  | x :: rest =>
      i <- Atoi (strings.Trim x " ") ;;
      parse_indexes rest (go_append res i)
  end.

Definition parse_token (token : string) : outcome parsed :=
  if (token =? "$")%string then Ok (Parsed "root" "$" ArgsNil None)
  else if (token =? "*")%string then Ok (Parsed "scan" "*" ArgsNil None)
  else
    let bracket_idx := strings.Index token "[" in
    if bracket_idx <? 0 then Ok (Parsed "key" token ArgsNil None)
    else
      key <- slice token 0 bracket_idx ;;
      tail <- slice token bracket_idx (len token) ;;
      if len tail <? 3 then Ok (Parsed "" key ArgsNil (Some (ErrTailLen tail)))
      else
        tail <- slice tail 1 (len tail - 1) ;;
        if strings.Contains tail "?" then
          if strings.HasPrefix tail "?(" && strings.HasSuffix tail ")" then
            inner <- slice tail 2 (len tail - 1) ;;
            Ok (Parsed "filter" key (ArgsString (strings.Trim inner " ")) None)
          else Ok (Parsed "filter" key ArgsNil None)
        else if strings.Contains tail ":" then
          match strings.Split tail ":" with
          | [t0; t1] =>
              '(frm, _) <- atoi_bound (strings.Trim t0 " ") ;;
              '(to, err) <- atoi_bound (strings.Trim t1 " ") ;;
              Ok (Parsed "range" key (ArgsRange frm to) err)
          | tails => Ok (Parsed "range" key ArgsNil (Some (ErrOneRange tails)))
          end
        else if (tail =? "*")%string then
          Ok (Parsed "range" key (ArgsRange None None) None)
        else
          match parse_indexes (strings.Split tail ",") [] with
          | Ok res => Ok (Parsed "idx" key (ArgsInts res) None)
          | Err e => Ok (Parsed "" "" ArgsNil (Some e))
          | Panic p => Panic p
          | Beyond => Beyond
          end.

(** ** The value model *)

(** What an [interface{}] of a decoded document holds.  [VNil] is the nil
    interface.  A [float64] is carried by the text [fmt] prints for it
    under [%v]: the package never computes on a number, it hands it on or
    prints it.  [VInt] is a Go [int] (the package's tests pass some).  A
    [map[string]interface{}] is the list of its entries, with distinct
    keys, in the order in which [reflect.Value.MapKeys] hands them out. *)
Inductive Value : Type :=
| VNil
| VBool (b : bool)
| VInt (n : Z)
| VFloat (text : string)
| VString (s : string)
| VSlice (xs : list Value)
| VMap (kvs : list (string * Value)).

(** [interface{} != nil] *)
Definition not_nil (v : Value) : bool :=
  match v with VNil => false | _ => true end.

(** [int] addition, with its wrap-around. *)
Definition wrap (z : Z) : Z := (z - min_int) mod 2 ^ 64 + min_int.
Definition add (a b : Z) : Z := wrap (a + b).

Definition length {A : Type} (xs : list A) : Z := Z.of_nat (List.length xs).

(** The entry of the first key equal to [key]. *)
Fixpoint MapIndex (kvs : list (string * Value)) (key : string) : option Value :=
  match kvs with
  | [] => None
  | (k, v) :: rest => if (k =? key)%string then Some v else MapIndex rest key
  end.

Fixpoint get_key (obj : Value) (key : string) : outcome Value :=
  match obj with
  | VNil => Err ErrGetFromNullObj
  | VMap kvs =>
      match MapIndex kvs key with
      | Some v => Ok v
      | None => Err (ErrKeyNotFound key)
      end
  | VSlice xs =>
      (* slice we should get from all objects in it. *)
      Ok (VSlice
            ((fix each (xs : list Value) (res : list Value) : list Value :=
                match xs with
                | [] => res
                | tmp :: rest =>
                    match get_key tmp key with
                    | Ok v => each rest (go_append res v)
                    | _ => each rest res
                    end
                end) xs []))
  | _ => Err ErrNotMap
  end.

Definition get_idx (obj : Value) (idx : Z) : outcome Value :=
  match obj with
  | VNil => Panic PanicNilType
  | VSlice xs =>
      let length := length xs in
      if 0 <=? idx then
        if length <=? idx then Err (ErrIndexRange length idx)
        else or_panic PanicIndex (nth_error xs (Z.to_nat idx))
      else
        let _idx := add length idx in
        if _idx <? 0 then Err (ErrIndexRange length idx)
        else or_panic PanicIndex (nth_error xs (Z.to_nat _idx))
  | _ => Err ErrNotSlice
  end.

(** [reflect.Value.Slice(i, j)] on a slice whose capacity is at least its
    length: panics unless [0 <= i <= j <= cap]. *)
Definition reflect_Slice (xs : list Value) (i j : Z) : outcome (list Value) :=
  if (0 <=? i) && (i <=? j) && (j <=? length xs)
  then Ok (firstn (Z.to_nat (j - i)) (skipn (Z.to_nat i) xs))
  else Panic PanicReflectSlice.

Definition get_range (obj : Value) (frm to : option Z) : outcome Value :=
  match obj with
  | VNil => Panic PanicNilType
  | VSlice xs =>
      let length := length xs in
      let _frm :=
        match frm with
        | Some fv => if fv <? 0 then add length fv else fv
        | None => 0
        end in
      let _to :=
        match to with
        | Some tv => if tv <? 0 then add (add length tv) 1 else add tv 1
        | None => length
        end in
      if (_frm <? 0) || (length <=? _frm) then Err (ErrFromRange length frm)
      else if (_to <? 0) || (length <? _to) then Err (ErrToRange length to)
      else
        res_v <- reflect_Slice xs _frm _to ;;
        Ok (VSlice res_v)
  | _ => Err ErrNotSlice
  end.

(** ** The filter mini-language: parser *)

Record filter_state : Type := FilterState {
  f_tmp : string;
  f_stage : Z;
  f_embrace : bool;
  f_lp : string;
  f_op : string;
  f_rp : string
}.

(** [switch stage { case 0: lp = tmp; case 1: op = tmp; case 2: rp = tmp }] *)
Definition commit (st : filter_state) : filter_state :=
  let '(FilterState tmp stage emb lp op rp) := st in
  if stage =? 0 then FilterState tmp stage emb tmp op rp
  else if stage =? 1 then FilterState tmp stage emb lp tmp rp
  else if stage =? 2 then FilterState tmp stage emb lp op tmp
  else st.

Definition set_tmp (st : filter_state) (tmp : string) : filter_state :=
  let '(FilterState _ stage emb lp op rp) := st in
  FilterState tmp stage emb lp op rp.

(** The body of the loop of [parse_filter] for the character [c] at [idx]. *)
Definition parse_filter_step (idx : nat) (c : ascii) (st : filter_state)
  : outcome filter_state :=
  if Ascii.eqb c "'" then
    if negb (f_embrace st) then
      let '(FilterState tmp stage _ lp op rp) := st in
      Ok (FilterState tmp stage true lp op rp)
    else Ok (set_tmp (commit st) "")
  else if Ascii.eqb c " " then
    if f_embrace st then Ok (set_tmp st (f_tmp st ++ str c))
    else
      let '(FilterState _ stage emb lp op rp) := set_tmp (commit st) "" in
      let stage := add stage 1 in
      if 2 <? stage then Err (ErrInvalidChar idx)
      else Ok (FilterState "" stage emb lp op rp)
  else Ok (set_tmp st (f_tmp st ++ str c)).

Fixpoint parse_filter_loop (filter : string) (idx : nat) (st : filter_state)
  : outcome filter_state :=
  match filter with
  | EmptyString => Ok st
  | String c rest =>
      st' <- parse_filter_step idx c st ;;
      parse_filter_loop rest (S idx) st'
  end.

Definition parse_filter (filter : string) : outcome (string * string * string) :=
  st <- parse_filter_loop filter 0 (FilterState "" 0 false "" "" "") ;;
  let '(FilterState tmp stage _ lp op rp) := st in
  if negb (tmp =? "")%string then
    if stage =? 0 then Ok (tmp, "exists", rp)
    else if stage =? 1 then Ok (lp, tmp, rp)
    else if stage =? 2 then Ok (lp, op, tmp)
    else Ok (lp, op, rp)
  else Ok (lp, op, rp).





(** ** Package [fmt] on values *)

(** [strconv.Itoa] *)
Definition Itoa (n : Z) : string := NilZero.string_of_int (Z.to_int n).

Fixpoint Join (parts : list string) (sep : string) : string :=
  match parts with
  | [] => ""
  | [x] => x
  | x :: rest => x ++ sep ++ Join rest sep
  end.

(** [fmt] prints the entries of a map in the order of their keys. *)
Fixpoint insert_entry (e : string * string) (es : list (string * string))
  : list (string * string) :=
  match es with
  | [] => [e]
  | e' :: rest =>
      if String.leb (fst e) (fst e') then e :: es else e' :: insert_entry e rest
  end.

Definition sort_entries (es : list (string * string)) : list (string * string) :=
  fold_right insert_entry [] es.

(** What [fmt.Sprintf] prints for one operand under the verb [%v]
    ([verb_s = false]) or [%s] ([verb_s = true]).  Under [%s] an operand
    that is no string is printed as [%!s(type=value)]. *)
Fixpoint Sprint (verb_s : bool) (v : Value) : string :=
  match v with
  | VNil => if verb_s then "%!s(<nil>)" else "<nil>"
  | VBool b =>
      let t := if b then "true" else "false" in
      if verb_s then "%!s(bool=" ++ t ++ ")" else t
  | VInt n => if verb_s then "%!s(int=" ++ Itoa n ++ ")" else Itoa n
  | VFloat t => if verb_s then "%!s(float64=" ++ t ++ ")" else t
  | VString s => s
  | VSlice xs =>
      "[" ++ Join ((fix each (xs : list Value) : list string :=
                      match xs with
                      | [] => []
                      | x :: rest => Sprint verb_s x :: each rest
                      end) xs) " " ++ "]"
  | VMap kvs =>
      "map[" ++ Join (map (fun e => fst e ++ ":" ++ snd e)
                        (sort_entries
                           ((fix each (kvs : list (string * Value))
                               : list (string * string) :=
                               match kvs with
                               | [] => []
                               | (k, x) :: rest => (k, Sprint verb_s x) :: each rest
                               end) kvs))) " " ++ "]"
  end.

(** ** The comparison rule *)

(** The loop of [isNumber], with its counter [dot_cnt]. *)
Fixpoint isNumber_loop (s : string) (dot_cnt : Z) : bool :=
  match s with
  | EmptyString => true
  | String c rest =>
      if Ascii.eqb c "." then
        let dot_cnt := add dot_cnt 1 in
        if 1 <? dot_cnt then false else isNumber_loop rest dot_cnt
      else if is_digit c then isNumber_loop rest dot_cnt
      else false
  end.

Definition isNumber (s : string) : bool := isNumber_loop s 0.

(** *** The fragment of [go/types.Eval] that [cmp_any] relies on

    [cmp_any] hands [types.Eval] the text [a op b], where [op] is one of
    the five relational operators and [a], [b] are either two quoted texts
    or two texts made of digits and at most one dot.  The model below reads
    exactly such expressions: an interpreted string literal of printable
    ASCII characters without backslash, and a decimal literal of Go (an
    integer that starts with [0] is octal; a literal with a dot is a
    floating-point literal).  Go compares such untyped constants exactly,
    and strings byte by byte.  On any other text the model answers
    [EvalBeyond]. *)

Inductive go_const : Type :=
| CString (s : string)
| CNumber (q : Q).

Inductive lexed : Type :=
| Lexed (c : go_const) (rest : string)
| LexError
| LexBeyond.

(** The double quote character. *)
Definition quote : ascii := "034"%char.

Definition plain_char (c : ascii) : bool :=
  (32 <=? nat_of_ascii c)%nat && (nat_of_ascii c <=? 126)%nat
  && negb (Ascii.eqb c "\").

(** The rest of a string literal, after its opening quote. *)
Fixpoint lex_string (s : string) (acc : string) : lexed :=
  match s with
  | EmptyString => LexBeyond
  | String c rest =>
      if Ascii.eqb c quote then Lexed (CString acc) rest
      else if plain_char c then lex_string rest (acc ++ str c)
      else LexBeyond
  end.

(** The longest prefix of digits and dots, and what follows it. *)
Fixpoint span_number (s : string) : string * string :=
  match s with
  | String c rest =>
      if is_digit c || Ascii.eqb c "." then
        let '(t, r) := span_number rest in (String c t, r)
      else (EmptyString, s)
  | EmptyString => (EmptyString, EmptyString)
  end.

Fixpoint octal_val (acc : Z) (s : string) : option Z :=
  match s with
  | EmptyString => Some acc
  | String c s' =>
      if is_digit c && (digit_val c <? 8) then octal_val (acc * 8 + digit_val c) s'
      else None
  end.

Fixpoint count_dots (s : string) : nat :=
  match s with
  | EmptyString => O
  | String c rest => if Ascii.eqb c "." then S (count_dots rest) else count_dots rest
  end.

(** The value of a literal made of digits and dots: [Some None] when Go
    rejects the literal, [None] when the model does not read it.  Literals
    of more than 1000 characters are not read: for very large values
    [go/constant] goes over to approximations. *)
Definition number_literal (t : string) : option (option Q) :=
  if 1000 <? len t then None else
  match count_dots t with
  | O =>
      match t with
      | EmptyString => Some None
      | String "0" (String _ _) =>
          match octal_val 0 t with
          | Some n => Some (Some (inject_Z n))
          | None => Some None            (* invalid digit in octal literal *)
          end
      | _ =>
          match digits_val 0 t with
          | Some n => Some (Some (inject_Z n))
          | None => None
          end
      end
  | S O =>
      match strings.Split t "." with
      | [ip; fp] =>
          if (ip =? "")%string && (fp =? "")%string then Some None
          else
            match digits_val 0 (ip ++ fp) with
            | Some n => Some (Some (Qmake n (Z.to_pos (10 ^ len fp))))
            | None => None
            end
      | _ => None
      end
  | _ => None
  end.

Definition lex_number (s : string) : lexed :=
  let '(t, rest) := span_number s in
  match t, rest with
  | EmptyString, EmptyString => LexError         (* operand missing at the end *)
  | EmptyString, String " " _ => LexError        (* operand missing before the operator *)
  | EmptyString, _ => LexBeyond
  | _, EmptyString | _, String " " _ =>
      match number_literal t with
      | Some (Some q) => Lexed (CNumber q) rest
      | Some None => LexError
      | None => LexBeyond
      end
  | _, _ => LexBeyond
  end.

Definition lex_operand (s : string) : lexed :=
  match s with
  | String c rest =>
      if Ascii.eqb c quote then lex_string rest "" else lex_number s
  | EmptyString => lex_number s
  end.

(** [" op "] at the head of [s], for the five relational operators. *)
Definition lex_operator (s : string) : option (string * string) :=
  match s with
  | String " " (String "<" (String "=" (String " " r))) => Some ("<=", r)
  | String " " (String "=" (String "=" (String " " r))) => Some ("==", r)
  | String " " (String ">" (String "=" (String " " r))) => Some (">=", r)
  | String " " (String "<" (String " " r)) => Some ("<", r)
  | String " " (String ">" (String " " r)) => Some (">", r)
  | _ => None
  end.

Definition holds (op : string) (c : comparison) : bool :=
  if (op =? "<")%string then match c with Lt => true | _ => false end
  else if (op =? "<=")%string then match c with Gt => false | _ => true end
  else if (op =? "==")%string then match c with Eq => true | _ => false end
  else if (op =? ">=")%string then match c with Lt => false | _ => true end
  else match c with Gt => true | _ => false end.

(** The result of [types.Eval]: the text of [res.Value.String()] of a
    constant value, or an error. *)
Inductive eval_result : Type :=
| EvalValue (text : string)
| EvalError
| EvalBeyond.

Definition bool_text (b : bool) : string := if b then "true" else "false".

Definition types_Eval (exp : string) : eval_result :=
  match lex_operand exp with
  | LexError => EvalError
  | LexBeyond => EvalBeyond
  | Lexed a rest =>
      match lex_operator rest with
      | None => EvalBeyond
      | Some (op, rest) =>
          match lex_operand rest with
          | LexError => EvalError
          | LexBeyond => EvalBeyond
          | Lexed b EmptyString =>
              match a, b with
              | CString x, CString y => EvalValue (bool_text (holds op (String.compare x y)))
              | CNumber x, CNumber y => EvalValue (bool_text (holds op (Qcompare x y)))
              | _, _ => EvalBeyond
              end
          | Lexed _ _ => EvalBeyond
          end
      end
  end.

Definition cmp_any (obj1 obj2 : Value) (op : string) : outcome bool :=
  if negb ((op =? "<")%string || (op =? "<=")%string || (op =? "==")%string
           || (op =? ">=")%string || (op =? ">")%string)
  then Err ErrOp
  else
    let exp :=
      if isNumber (Sprint true obj1) && isNumber (Sprint true obj2)
      then Sprint false obj1 ++ " " ++ op ++ " " ++ Sprint false obj2
      else str quote ++ Sprint false obj1 ++ str quote ++ " " ++ op ++ " "
           ++ str quote ++ Sprint false obj2 ++ str quote in
    match types_Eval exp with
    | EvalError => Err ErrEval
    | EvalBeyond => Beyond
    | EvalValue text =>
        if negb (text =? "false")%string && negb (text =? "true")%string
        then Err ErrNotBool
        else if (text =? "true")%string then Ok true
        else Ok false
    end.

(** ** The filter mini-language: evaluator *)

(** [steps[0]] *)
Definition first_step (steps : list string) : outcome string :=
  or_panic PanicIndex (nth_error steps 0).

(** One iteration of the loop of [filter_get_from_explicit_path]. *)
Definition explicit_step (xobj : Value) (s : string) : outcome Value :=
  p <- parse_token s ;;
  if (p_op p =? "key")%string then get_key xobj (p_key p)
  else if (p_op p =? "idx")%string then
    match p_args p with
    | ArgsInts xs =>
        match xs with
        | [x] =>
            xobj <- get_key xobj (p_key p) ;;
            get_idx xobj x
        | _ => Err ErrMultipleIndex
        end
    | _ => Panic PanicAssert
    end
  else Err ErrNotSupported.

Fixpoint explicit_loop (xobj : Value) (steps : list string) : outcome Value :=
  match steps with
  | [] => Ok xobj
  | s :: rest =>
      xobj <- explicit_step xobj s ;;
      explicit_loop xobj rest
  end.

Definition filter_get_from_explicit_path (obj : Value) (path : string)
  : outcome Value :=
  steps <- tokenize path ;;
  s0 <- first_step steps ;;
  if negb (s0 =? "@")%string && negb (s0 =? "$")%string then Err ErrRootInFront
  else explicit_loop obj (tl steps).

(** [v, err = filter_get_from_explicit_path(o, p)] where [err] is never
    looked at afterwards: on an error [v] is nil. *)
Definition resolved (r : outcome Value) : outcome Value :=
  match r with
  | Err _ => Ok VNil
  | _ => r
  end.

(** The operand [p] of a predicate: a path from the candidate, a path from
    the root, or the text itself. *)
Definition operand (obj root : Value) (p : string) : outcome Value :=
  if strings.HasPrefix p "@." then resolved (filter_get_from_explicit_path obj p)
  else if strings.HasPrefix p "$." then resolved (filter_get_from_explicit_path root p)
  else Ok (VString p).

Definition eval_filter (obj root : Value) (lp op rp : string) : outcome bool :=
  lp_v <- operand obj root lp ;;
  if (op =? "exists")%string then Ok (not_nil lp_v)
  else if (op =? "=~")%string then Err ErrNotImplemented
  else
    rp_v <- operand obj root rp ;;
    cmp_any lp_v rp_v op.

(** The loop of [get_filtered] over the candidates, in their order. *)
Fixpoint filter_each (xs : list Value) (root : Value) (lp op rp : string)
  (res : list Value) : outcome (list Value) :=
  match xs with
  | [] => Ok res
  | tmp :: rest =>
      ok <- eval_filter tmp root lp op rp ;;
      filter_each rest root lp op rp (if ok then go_append res tmp else res)
  end.

Definition get_filtered (obj root : Value) (filter : string) : outcome (list Value) :=
  '(lp, op, rp) <- parse_filter filter ;;
  match obj with
  | VNil => Panic PanicNilType
  | VSlice xs => filter_each xs root lp op rp []
  | VMap kvs => filter_each (map snd kvs) root lp op rp []
  | _ => Err ErrFilterKind
  end.

(** ** The path evaluator *)

(** The loop of the multiple-index branch. *)
Fixpoint index_each (xobj : Value) (xs : list Z) (res : list Value)
  : outcome (list Value) :=
  match xs with
  | [] => Ok res
  | x :: rest =>
      tmp <- get_idx xobj x ;;
      index_each xobj rest (go_append res tmp)
  end.

(** [xobj, err = get_filtered(...)] at the end of the filter case: [err] is
    not looked at, and on an error [xobj] is the nil [[]interface{}]. *)
Definition unchecked (r : outcome (list Value)) : outcome Value :=
  match r with
  | Ok res => Ok (VSlice res)
  | Err _ => Ok (VSlice [])
  | Panic p => Panic p
  | Beyond => Beyond
  end.

(** One iteration of the loop of [JsonPathLookup]; [obj] is the argument
    of [JsonPathLookup], [xobj] the current value. *)
Definition lookup_step (obj xobj : Value) (s : string) : outcome Value :=
  p <- parse_token s ;;
  if (p_op p =? "key")%string then get_key xobj (p_key p)
  else if (p_op p =? "idx")%string then
    xobj <- get_key xobj (p_key p) ;;
    match p_args p with
    | ArgsInts xs =>
        if 1 <? length xs then
          res <- index_each xobj xs [] ;;
          Ok (VSlice res)
        else if length xs =? 1 then
          x <- or_panic PanicIndex (nth_error xs 0) ;;
          get_idx xobj x
        else Err ErrEmptyIndex
    | _ => Panic PanicAssert
    end
  else if (p_op p =? "range")%string then
    xobj <- get_key xobj (p_key p) ;;
    match p_args p with
    | ArgsRange frm to => get_range xobj frm to
    | _ => Err ErrRangeArgs
    end
  else if (p_op p =? "filter")%string then
    xobj <- get_key xobj (p_key p) ;;
    match p_args p with
    | ArgsString filter => unchecked (get_filtered xobj obj filter)
    | _ => Panic PanicAssert
    end
  else Err ErrNotSupported.

Fixpoint lookup_loop (obj xobj : Value) (steps : list string) : outcome Value :=
  match steps with
  | [] => Ok xobj
  | s :: rest =>
      xobj <- lookup_step obj xobj s ;;
      lookup_loop obj xobj rest
  end.

Section Lookup.

(** [deepcopy.Iface] of [github.com/mohae/utilitybelt/deepcopy], which is
    no part of this package. *)
Variable deepcopy_Iface : Value -> Value.

Definition JsonPathLookup (obj : Value) (jpath : string) : outcome Value :=
  steps <- tokenize jpath ;;
  s0 <- first_step steps ;;
  if negb (s0 =? "@")%string && negb (s0 =? "$")%string then Err ErrRootInFront
  else
    let steps := tl steps in
    let xobj := deepcopy_Iface obj in
    lookup_loop obj xobj steps.

End Lookup.

(** ** The document of the package's tests *)

Definition book (category author title : string) (isbn : option string)
  (price : string) : Value :=
  VMap ([("category", VString category); ("author", VString author);
         ("title", VString title)]
        ++ match isbn with Some i => [("isbn", VString i)] | None => [] end
        ++ [("price", VFloat price)])%list.

(** [json_data] of the test file, as [encoding/json] decodes it. *)
Definition json_data : Value :=
  VMap [("store",
         VMap [("book",
                VSlice [
                  book "reference" "Nigel Rees" "Sayings of the Century" None "8.95";
                  book "fiction" "Evelyn Waugh" "Sword of Honour" None "12.99";
                  book "fiction" "Herman Melville" "Moby Dick"
                       (Some "0-553-21311-3") "8.99";
                  book "fiction" "J. R. R. Tolkien" "The Lord of the Rings"
                       (Some "0-395-19395-8") "22.99"]);
               ("bicycle", VMap [("color", VString "red"); ("price", VFloat "19.95")])]);
        ("expensive", VFloat "10")].

(** A copy that shares nothing with its argument is, as a value, its
    argument. *)
Definition structural_copy (v : Value) : Value := v.

(** ** Notions used in the statements *)

(** [t] is a root marker. *)
Definition is_root (t : string) : Prop := t = "$" \/ t = "@".

(** The bounds as the specification resolves them, over the integers. *)
Definition resolved_from (L : Z) (frm : option Z) : Z :=
  match frm with
  | None => 0
  | Some f => if f <? 0 then L + f else f
  end.

Definition resolved_to (L : Z) (to : option Z) : Z :=
  match to with
  | None => L
  | Some t => if t <? 0 then L + t + 1 else t + 1
  end.

(** A bound that is present is a Go [int]. *)
Definition is_int (b : option Z) : Prop :=
  match b with
  | None => True
  | Some z => min_int <= z <= max_int
  end.

(** The lookups that succeed among the elements, in their order. *)
Definition found (xs : list Value) (key : string) : list Value :=
  flat_map (fun x => match get_key x key with Ok v => [v] | _ => [] end) xs.

(** The values [get_filtered] tries the predicate on: the elements of an
    array, the values of an object. *)
Definition candidates (obj : Value) : option (list Value) :=
  match obj with
  | VSlice xs => Some xs
  | VMap kvs => Some (map snd kvs)
  | _ => None
  end.

(** [s] between double quotes. *)
Definition quoted (s : string) : string := str quote ++ s ++ str quote.

(** The evaluator that section 5 of the specification describes: the
    root kept for the [$.] operands of a predicate is the copy that is
    walked. *)
Definition JsonPathLookup_clone_root (deepcopy_Iface : Value -> Value)
  (obj : Value) (jpath : string) : outcome Value :=
  steps <- tokenize jpath ;;
  s0 <- first_step steps ;;
  if negb (s0 =? "@")%string && negb (s0 =? "$")%string then Err ErrRootInFront
  else
    let xobj := deepcopy_Iface obj in
    lookup_loop xobj xobj (tl steps).

(** Values carry no identity, so the copy is told from the original by
    letting [deepcopy_Iface] stand for a function that is not the identity:
    this one forgets an entry of the document. *)
Definition copy_without (key : string) (v : Value) : Value :=
  match v with
  | VMap kvs => VMap (filter (fun e => negb (fst e =? key)%string) kvs)
  | _ => v
  end.

(** [obj] has a non-nil entry [key]. *)
Definition present (obj : Value) (key : string) : bool :=
  match get_key obj key with
  | Ok v => not_nil v
  | _ => false
  end.






(** The element an index selects in an array: [i] counts from the start
    when it is not negative, from the end otherwise. *)
Definition element (xs : list Value) (i : Z) : Value :=
  nth (Z.to_nat (if i <? 0 then length xs + i else i)) xs VNil.

(** [i] is an index into an array of length [L]. *)
Definition in_range (L i : Z) : Prop := - L <= i < L.


(** Every character of [s] satisfies [P]. *)
Fixpoint all_chars (P : ascii -> bool) (s : string) : bool :=
  match s with
  | EmptyString => true
  | String c rest => P c && all_chars P rest
  end.

(** A text of printable ASCII characters without backslash and without
    double quote. *)
Definition plain_text (s : string) : bool :=
  all_chars (fun c => plain_char c && negb (Ascii.eqb c quote)) s.

(** [op] is one of the five relational operators. *)
Definition relational (op : string) : bool :=
  (op =? "<")%string || (op =? "<=")%string || (op =? "==")%string
  || (op =? ">=")%string || (op =? ">")%string.

(** The errors a lookup can end with. *)
Definition lookup_error (e : error) : bool :=
  match e with
  | ErrShouldStart | ErrGetFromNullObj | ErrKeyNotFound _ | ErrNotMap
  | ErrIndexRange _ _ | ErrNotSlice | ErrFromRange _ _ | ErrToRange _ _
  | ErrRangeArgs | ErrNotSupported => true
  | _ => false
  end.

(** * Properties *)

(** ** The monad *)

Lemma bind_Ok_inv {A B : Type} (m : outcome A) (f : A -> outcome B) (b : B) :
  bind m f = Ok b -> exists a, m = Ok a /\ f a = Ok b.
Proof.
  destruct m as [a | e | p |]; simpl; intros H; try discriminate.
  exists a; split; [reflexivity | exact H].
Qed.

(** ** The tokenizer: the token list starts with the root marker and only grows *)

Lemma tokenize_step_first (x : ascii) (st' : list string * string) :
  tokenize_step 0 x ([], "") = Ok st' ->
  exists t, st' = ([t], "") /\ is_root t.
Proof.
  unfold tokenize_step; simpl.
  destruct (Ascii.eqb_spec x "$") as [-> | N1]; simpl.
  - intros H; inversion H; subst. exists "$"; split; [reflexivity | now left].
  - destruct (Ascii.eqb_spec x "@") as [-> | N2]; simpl; intros H; inversion H; subst.
    exists "@"; split; [reflexivity | now right].
Qed.

Lemma tokenize_step_first_err (x : ascii) :
  x <> "$"%char -> x <> "@"%char ->
  tokenize_step 0 x ([], "") = Err ErrShouldStart.
Proof.
  intros H1 H2. unfold tokenize_step; simpl.
  destruct (Ascii.eqb_spec x "$") as [-> | _]; [contradiction |].
  destruct (Ascii.eqb_spec x "@") as [-> | _]; [contradiction | reflexivity].
Qed.

(** After the first character, an iteration leaves the tokens in place and
    appends at most one. *)
Lemma tokenize_step_grows (idx : nat) (x : ascii) (tokens tokens' : list string)
  (token token' : string) :
  idx <> O ->
  tokenize_step idx x (tokens, token) = Ok (tokens', token') ->
  exists ext, tokens' = (tokens ++ ext)%list.
Proof.
  intros Hidx. unfold tokenize_step.
  destruct (Nat.eqb_spec idx 0) as [-> | _]; [contradiction |].
  repeat match goal with
         | |- context [if ?b then _ else _] => destruct b
         | |- context [bind ?m _] => destruct m; simpl
         end;
    intros H; inversion H; subst;
    solve [ exists []; now rewrite app_nil_r | eexists; reflexivity ].
Qed.

Lemma tokenize_loop_grows (query : string) :
  forall (idx : nat) (tokens tokens' : list string) (token token' : string),
    idx <> O ->
    tokenize_loop query idx (tokens, token) = Ok (tokens', token') ->
    exists ext, tokens' = (tokens ++ ext)%list.
Proof.
  induction query as [| x rest IH]; simpl; intros idx tokens tokens' token token' Hidx H.
  - inversion H; subst. exists []. now rewrite app_nil_r.
  - apply bind_Ok_inv in H. destruct H as [[tk t] [Hstep Hloop]].
    destruct (tokenize_step_grows _ _ _ _ _ _ Hidx Hstep) as [e1 ->].
    apply IH in Hloop; [| discriminate].
    destruct Hloop as [e2 ->]. exists (e1 ++ e2)%list. now rewrite app_assoc.
Qed.

Lemma tokenize_finish_grows (tokens steps : list string) (token : string) :
  tokenize_finish (tokens, token) = Ok steps ->
  exists ext, steps = (tokens ++ ext)%list.
Proof.
  unfold tokenize_finish.
  repeat match goal with
         | |- context [if ?b then _ else _] => destruct b
         | |- context [bind ?m _] => destruct m; simpl
         end;
    intros H; inversion H; subst;
    solve [ exists []; now rewrite app_nil_r | eexists; reflexivity ].
Qed.

(** A non-empty query that tokenizes yields the root marker first. *)
Lemma tokenize_root_first (x : ascii) (rest : string) (steps : list string) :
  tokenize (String x rest) = Ok steps ->
  exists s0 more, steps = s0 :: more /\ is_root s0.
Proof.
  unfold tokenize; cbn [tokenize_loop]. intros H.
  apply bind_Ok_inv in H. destruct H as [[tokens token] [Hloop Hfin]].
  apply bind_Ok_inv in Hloop. destruct Hloop as [st1 [Hfirst Hloop]].
  apply tokenize_step_first in Hfirst.
  destruct Hfirst as [t [-> Hroot]].
  apply tokenize_loop_grows in Hloop; [| discriminate].
  destruct Hloop as [e1 ->].
  apply tokenize_finish_grows in Hfin. destruct Hfin as [e2 ->].
  exists t, (e1 ++ e2)%list. split; [reflexivity | exact Hroot].
Qed.

Lemma tokenize_no_root (x : ascii) (rest : string) :
  x <> "$"%char -> x <> "@"%char ->
  tokenize (String x rest) = Err ErrShouldStart.
Proof.
  intros H1 H2. unfold tokenize; cbn [tokenize_loop].
  rewrite tokenize_step_first_err by assumption.
  reflexivity.
Qed.

(** ** The tokenizer never panics *)

Lemma len_String (c : ascii) (r : string) : len (String c r) = 1 + len r.
Proof. unfold len. cbn [String.length]. lia. Qed.

Lemma len_nonneg (s : string) : 0 <= len s.
Proof. unfold len. lia. Qed.

Lemma byte_at_first (c : ascii) (r : string) : byte_at (String c r) 0 = Ok c.
Proof.
  unfold byte_at. rewrite len_String.
  pose proof (len_nonneg r).
  replace ((0 <=? 0) && (0 <? 1 + len r)) with true; [reflexivity |].
  symmetry. apply andb_true_iff. split; lia.
Qed.

Lemma slice_defined (s : string) (lo hi : Z) :
  0 <= lo -> lo <= hi -> hi <= len s -> exists t, slice s lo hi = Ok t.
Proof.
  intros H1 H2 H3. unfold slice.
  replace ((0 <=? lo) && (lo <=? hi) && (hi <=? len s)) with true;
    [eexists; reflexivity |].
  symmetry. repeat (apply andb_true_iff; split); lia.
Qed.

Lemma last_token_defined (tokens : list string) :
  tokens <> [] -> exists l, last_token tokens = Ok l.
Proof.
  intros H. unfold last_token, last_elem.
  destruct tokens as [| t ts]; [contradiction |]. cbn [is_empty].
  destruct (nth_error (t :: ts) (List.length (t :: ts) - 1)) as [l |] eqn:E.
  - exists l. reflexivity.
  - apply nth_error_None in E. cbn [List.length] in E. lia.
Qed.

Lemma append_str_cons (token : string) (x : ascii) :
  exists c r, token ++ str x = String c r.
Proof. destruct token as [| c r]; cbn; do 2 eexists; reflexivity. Qed.

(** After the first character, an iteration always goes through. *)
Lemma tokenize_step_defined (idx : nat) (x : ascii) (tokens : list string)
  (token : string) :
  idx <> O -> tokens <> [] ->
  exists st', tokenize_step idx x (tokens, token) = Ok st'.
Proof.
  intros Hidx Hne. unfold tokenize_step.
  destruct (Nat.eqb_spec idx 0) as [-> | _]; [contradiction |].
  destruct (append_str_cons token x) as (c & r & ->).
  destruct (last_token_defined tokens Hne) as [l ->].
  rewrite byte_at_first. cbn [bind].
  pose proof (len_nonneg r) as Hr. pose proof (len_String c r) as Hl.
  destruct (String c r =? ".")%string eqn:E1; [eexists; reflexivity |].
  destruct (String c r =? "..")%string; [eexists; reflexivity |].
  destruct (strings.Contains (String c r) "[").
  - destruct (Ascii.eqb x "]" && negb (strings.HasSuffix (String c r) "\]"));
      [| eexists; reflexivity].
    destruct (Ascii.eqb c "."); [| eexists; reflexivity].
    destruct (slice_defined (String c r) 1 (len (String c r))) as [t ->];
      try lia. eexists; reflexivity.
  - destruct (Ascii.eqb x "."); [| eexists; reflexivity].
    destruct (Ascii.eqb_spec c ".") as [-> | _].
    + assert (r <> "") by (intros ->; discriminate).
      assert (1 <= len r) by (destruct r; [contradiction | rewrite len_String; pose proof (len_nonneg r); lia]).
      destruct (slice_defined (String "." r) 1 (len (String "." r) - 1)) as [t ->];
        try lia. eexists; reflexivity.
    + destruct (slice_defined (String c r) 0 (len (String c r) - 1)) as [t ->];
        try lia. eexists; reflexivity.
Qed.

Lemma tokenize_loop_defined (query : string) :
  forall (idx : nat) (tokens : list string) (token : string),
    idx <> O -> tokens <> [] ->
    exists tokens' token',
      tokenize_loop query idx (tokens, token) = Ok (tokens', token')
      /\ tokens' <> [].
Proof.
  induction query as [| x rest IH]; intros idx tokens token Hidx Hne;
    cbn [tokenize_loop].
  - exists tokens, token. split; [reflexivity | exact Hne].
  - destruct (tokenize_step_defined idx x tokens token Hidx Hne) as [[tk t] E].
    rewrite E. cbn [bind].
    apply IH; [discriminate |].
    destruct (tokenize_step_grows _ _ _ _ _ _ Hidx E) as [ext ->].
    destruct tokens; [contradiction | discriminate].
Qed.

Lemma tokenize_finish_defined (tokens : list string) (token : string) :
  tokens <> [] -> exists steps, tokenize_finish (tokens, token) = Ok steps.
Proof.
  intros Hne. unfold tokenize_finish.
  destruct (last_token_defined tokens Hne) as [l Hl].
  destruct token as [| c r]; [eexists; reflexivity |].
  pose proof (len_nonneg r) as Hr. pose proof (len_String c r) as Hs.
  assert (Hpos : (0 <? len (String c r)) = true) by (apply Z.ltb_lt; lia).
  rewrite Hpos, byte_at_first. cbn [bind].
  destruct (Ascii.eqb c ".").
  - destruct (slice_defined (String c r) 1 (len (String c r))) as [t ->];
      try lia.
    cbn [bind]. rewrite Hl. cbn [bind].
    destruct (negb (t =? "*")%string), (negb (l =? "*")%string); eexists; reflexivity.
  - rewrite Hl. cbn [bind].
    destruct (negb (String c r =? "*")%string), (negb (l =? "*")%string);
      eexists; reflexivity.
Qed.

(** [tokenize] returns a token list or its error; it never panics. *)
Lemma tokenize_defined (query : string) :
  (exists steps, tokenize query = Ok steps) \/ tokenize query = Err ErrShouldStart.
Proof.
  destruct query as [| x rest]; [left; eexists; reflexivity |].
  assert (G : forall t, tokenize_step 0 x ([], "") = Ok ([t], "") ->
                        exists steps, tokenize (String x rest) = Ok steps).
  { intros t E. unfold tokenize. cbn [tokenize_loop]. rewrite E. cbn [bind].
    destruct (tokenize_loop_defined rest 1 [t] "") as (tokens & token & -> & Hne);
      try discriminate.
    cbn [bind]. now apply tokenize_finish_defined. }
  destruct (Ascii.eqb_spec x "$") as [-> | N1]; [left; now apply (G "$") |].
  destruct (Ascii.eqb_spec x "@") as [-> | N2]; [left; now apply (G "@") |].
  right. now apply tokenize_no_root.
Qed.

(** ** The path evaluator as a fold over the tokens *)

Lemma lookup_loop_app (obj : Value) (pre post : list string) :
  forall xobj,
    lookup_loop obj xobj (pre ++ post) =
    (y <- lookup_loop obj xobj pre ;; lookup_loop obj y post).
Proof.
  induction pre as [| s pre IH]; intros xobj; simpl; [reflexivity |].
  destruct (lookup_step obj xobj s); simpl; auto.
Qed.

(** Once the query is tokenized, [JsonPathLookup] walks the tokens after
    the root marker, starting from the copy of the document. *)
Lemma JsonPathLookup_tokens (dc : Value -> Value) (obj : Value) (jpath s0 : string)
  (steps : list string) :
  tokenize jpath = Ok (s0 :: steps) ->
  JsonPathLookup dc obj jpath = lookup_loop obj (dc obj) steps.
Proof.
  intros H. unfold JsonPathLookup. rewrite H. cbn [bind first_step nth_error or_panic tl].
  destruct jpath as [| x rest]; [discriminate |].
  apply tokenize_root_first in H. destruct H as (t & more & E & [-> | ->]);
    inversion E; subst; reflexivity.
Qed.

(** Whatever the current value, a Scan token stops the walk. *)
Lemma lookup_step_scan (obj xobj : Value) :
  lookup_step obj xobj "*" = Err ErrNotSupported.
Proof. reflexivity. Qed.

(** ** C1: the Scan segment *)

(** C1, as the code has it.  The evaluator has no case for a Scan segment:
    once the segments before a [*] token have been walked, the lookup stops
    with the error of the [default] case of its [switch], "expression don't
    support in filter".  A path whose tokens contain [*] therefore never
    yields a value, and [$..field] fails with that error on every
    document. *)
Theorem scan_segment_stops_lookup (dc : Value -> Value) (obj : Value)
  (jpath s0 : string) (pre post : list string) :
  tokenize jpath = Ok (s0 :: pre ++ "*" :: post)%list ->
  JsonPathLookup dc obj jpath
  = (_ <- lookup_loop obj (dc obj) pre ;; Err ErrNotSupported)
  /\ (forall v, JsonPathLookup dc obj jpath <> Ok v)
  /\ JsonPathLookup dc obj "$..field" = Err ErrNotSupported.
Proof.
  intros H.
  assert (E : JsonPathLookup dc obj jpath
              = (_ <- lookup_loop obj (dc obj) pre ;; Err ErrNotSupported)).
  { rewrite (JsonPathLookup_tokens dc obj jpath s0 _ H), lookup_loop_app.
    destruct (lookup_loop obj (dc obj) pre); cbn [bind lookup_loop];
      [now rewrite lookup_step_scan | reflexivity ..]. }
  split; [exact E | split].
  - intros v. rewrite E. destruct (lookup_loop obj (dc obj) pre); discriminate.
  - now rewrite (JsonPathLookup_tokens dc obj "$..field" "$" ["*"; "field"] eq_refl).
Qed.

Lemma scan_segment_stops_lookup_witness :
  tokenize "$.store..price" = Ok ("$" :: ["store"] ++ "*" :: ["price"])%list
  /\ JsonPathLookup structural_copy json_data "$.store..price"
     = (_ <- lookup_loop json_data (structural_copy json_data) ["store"] ;;
        Err ErrNotSupported).
Proof.
  split; [reflexivity |].
  exact (proj1 (scan_segment_stops_lookup structural_copy json_data
                  "$.store..price" "$" ["store"] ["price"] eq_refl)).
Defined.

(** C1 as stated fails: on the document [{"field": 1}] the Scan segment
    does not hand the current value on, and [$..field] does not reach
    [field]: the lookup returns the error of the [default] case. *)
Lemma scan_is_no_pass_through :
  lookup_step (VMap [("field", VInt 1)]) (VMap [("field", VInt 1)]) "*"
  <> Ok (VMap [("field", VInt 1)])
  /\ JsonPathLookup structural_copy (VMap [("field", VInt 1)]) "$..field"
     = Err ErrNotSupported.
Proof. split; [discriminate | reflexivity]. Qed.

(** ** C9: the empty path *)

(** C9.  [tokenize] accepts the empty string and returns no token, and no
    other string does; [JsonPathLookup] then reads [steps[0]] and panics
    with an index out of range.  Every other path that starts with neither
    [$] nor [@] is answered with the tokenizer's error. *)
Theorem empty_path_panics (dc : Value -> Value) (obj : Value) (x : ascii)
  (rest : string) :
  x <> "$"%char -> x <> "@"%char ->
  tokenize "" = Ok []
  /\ (forall q, tokenize q = Ok [] -> q = "")
  /\ JsonPathLookup dc obj "" = Panic PanicIndex
  /\ JsonPathLookup dc obj (String x rest) = Err ErrShouldStart.
Proof.
  intros H1 H2. repeat split.
  - intros [| c q] H; [reflexivity |].
    apply tokenize_root_first in H. destruct H as (s0 & more & E & _). discriminate.
  - unfold JsonPathLookup. now rewrite tokenize_no_root.
Qed.

Lemma empty_path_panics_witness :
  ("s"%char <> "$"%char /\ "s"%char <> "@"%char)
  /\ JsonPathLookup structural_copy json_data "" = Panic PanicIndex
  /\ JsonPathLookup structural_copy json_data "store" = Err ErrShouldStart.
Proof.
  assert (H1 : "s"%char <> "$"%char) by discriminate.
  assert (H2 : "s"%char <> "@"%char) by discriminate.
  split; [split; assumption |].
  exact (proj2 (proj2 (empty_path_panics structural_copy json_data "s" "tore" H1 H2))).
Defined.

(** ** C10: a filter body that is not of the shape [?( ... )] *)

(** C10.  For the token [a[?x]] the segment parser answers [filter] with a
    nil payload and no error; after the key [a] has been found, the type
    assertion [args.(string)] of [JsonPathLookup] panics.  The same happens
    at every token that is parsed to [filter] with a nil payload, once its
    key is found. *)
Theorem filter_without_parentheses_panics (dc : Value -> Value) (obj v : Value) :
  get_key (dc obj) "a" = Ok v ->
  parse_token "a[?x]" = Ok (Parsed "filter" "a" ArgsNil None)
  /\ JsonPathLookup dc obj "$.a[?x]" = Panic PanicAssert
  /\ (forall xobj s key w,
        parse_token s = Ok (Parsed "filter" key ArgsNil None) ->
        get_key xobj key = Ok w ->
        lookup_step obj xobj s = Panic PanicAssert).
Proof.
  intros H.
  assert (G : forall xobj s key w,
             parse_token s = Ok (Parsed "filter" key ArgsNil None) ->
             get_key xobj key = Ok w ->
             lookup_step obj xobj s = Panic PanicAssert).
  { intros xobj s key w Hs Hk. unfold lookup_step. rewrite Hs. cbn. now rewrite Hk. }
  split; [reflexivity | split; [| exact G]].
  rewrite (JsonPathLookup_tokens dc obj "$.a[?x]" "$" ["a[?x]"] eq_refl).
  cbn [lookup_loop]. now rewrite (G (dc obj) "a[?x]" "a" v eq_refl H).
Qed.

Lemma filter_without_parentheses_panics_witness :
  get_key (structural_copy (VMap [("a", VSlice [VInt 1])])) "a" = Ok (VSlice [VInt 1])
  /\ JsonPathLookup structural_copy (VMap [("a", VSlice [VInt 1])]) "$.a[?x]"
     = Panic PanicAssert.
Proof.
  split; [reflexivity |].
  exact (proj1 (proj2 (filter_without_parentheses_panics structural_copy
                         (VMap [("a", VSlice [VInt 1])]) (VSlice [VInt 1]) eq_refl))).
Defined.

(** ** C6: key access through null *)

(** C6.  [get_key] on the nil value fails with [ErrGetFromNullObj], which
    is not the error of a key missing from an object; a lookup that goes
    through a null [head_commit] returns [ErrGetFromNullObj]. *)
Theorem null_traversal_error (dc : Value -> Value) (obj : Value) (key : string)
  (kvs : list (string * Value)) :
  get_key (dc obj) "head_commit" = Ok VNil ->
  MapIndex kvs key = None ->
  get_key VNil key = Err ErrGetFromNullObj
  /\ get_key (VMap kvs) key = Err (ErrKeyNotFound key)
  /\ ErrGetFromNullObj <> ErrKeyNotFound key
  /\ JsonPathLookup dc obj "$.head_commit.author.username" = Err ErrGetFromNullObj.
Proof.
  intros Hnull Hmiss. repeat split.
  - simpl. now rewrite Hmiss.
  - discriminate.
  - rewrite (JsonPathLookup_tokens dc obj "$.head_commit.author.username" "$"
               ["head_commit"; "author"; "username"] eq_refl).
    cbn [lookup_loop].
    assert (E : forall x k, (strings.Index k "[" <? 0) = true ->
                            (k =? "$")%string = false -> (k =? "*")%string = false ->
                            lookup_step obj x k = get_key x k).
    { intros x k Hk H1 H2. unfold lookup_step, parse_token.
      rewrite H1, H2, Hk. reflexivity. }
    rewrite (E _ "head_commit") by reflexivity. rewrite Hnull. cbn [bind].
    rewrite (E _ "author") by reflexivity. reflexivity.
Qed.

Lemma null_traversal_error_witness :
  (get_key (structural_copy (VMap [("head_commit", VNil)])) "head_commit" = Ok VNil
   /\ MapIndex [("head_commit", VNil)] "author" = None)
  /\ JsonPathLookup structural_copy (VMap [("head_commit", VNil)])
       "$.head_commit.author.username" = Err ErrGetFromNullObj.
Proof.
  split; [split; reflexivity |].
  exact (proj2 (proj2 (proj2
           (null_traversal_error structural_copy (VMap [("head_commit", VNil)])
              "author" [("head_commit", VNil)] eq_refl eq_refl)))).
Defined.

(** ** C5: ranges *)

Lemma wrap_small (z : Z) : min_int <= z <= max_int -> wrap z = z.
Proof.
  unfold wrap, min_int, max_int. intros H.
  rewrite Z.mod_small by lia. lia.
Qed.

Lemma wrap_succ_max : wrap (max_int + 1) = min_int.
Proof. reflexivity. Qed.

(** The code's [_frm] is the specification's resolved [from]. *)
Lemma from_resolved (L : Z) (frm : option Z) :
  0 <= L <= max_int -> is_int frm ->
  match frm with
  | Some fv => if fv <? 0 then add L fv else fv
  | None => 0
  end = resolved_from L frm.
Proof.
  intros HL Hf. destruct frm as [fv |]; simpl in *; [| reflexivity].
  destruct (Z.ltb_spec fv 0); [| reflexivity].
  unfold add. apply wrap_small. unfold min_int, max_int in *. lia.
Qed.

(** The code's [_to] is the specification's resolved [to], except for
    [to = max_int], where [to + 1] wraps around to [min_int]; either value
    is outside [0 .. L]. *)
Lemma to_resolved (L : Z) (to : option Z) :
  0 <= L <= max_int -> is_int to ->
  let _to := match to with
             | Some tv => if tv <? 0 then add (add L tv) 1 else add tv 1
             | None => L
             end in
  _to = resolved_to L to \/ (_to < 0 /\ L < resolved_to L to).
Proof.
  intros HL Ht. destruct to as [tv |]; simpl in *; [| now left].
  destruct (Z.ltb_spec tv 0).
  - left. unfold add. rewrite (wrap_small (L + tv)) by (unfold min_int, max_int in *; lia).
    apply wrap_small. unfold min_int, max_int in *. lia.
  - destruct (Z.eq_dec tv max_int) as [-> | N].
    + right. unfold add. rewrite wrap_succ_max. unfold min_int, max_int in *. lia.
    + left. unfold add. apply wrap_small. unfold min_int, max_int in *. lia.
Qed.

(** C5, as the code has it.  For an array of length [L], [get_range]
    resolves [from] and [to] as the specification says (an absent [to] is
    [L], a negative one [L + to + 1], any other [to + 1]), answers a
    [from] outside [0 <= from < L] and a resolved [to] outside
    [0 <= to <= L] with an error, and, when [from] does not exceed the
    resolved [to], returns the elements at [from], ..., resolved [to] - 1 in
    order.  On an array of four elements [[0:1]] selects two elements and
    [[:2]] the first three. *)
Theorem get_range_resolves_bounds (xs : list Value) (frm to : option Z) :
  is_int frm -> is_int to -> length xs <= max_int ->
  let L := length xs in
  let f := resolved_from L frm in
  let t := resolved_to L to in
  (f < 0 \/ L <= f -> get_range (VSlice xs) frm to = Err (ErrFromRange L frm))
  /\ (0 <= f < L -> t < 0 \/ L < t ->
      get_range (VSlice xs) frm to = Err (ErrToRange L to))
  /\ (0 <= f < L -> 0 <= t <= L -> f <= t ->
      get_range (VSlice xs) frm to
      = Ok (VSlice (firstn (Z.to_nat (t - f)) (skipn (Z.to_nat f) xs))))
  /\ (forall a b c d,
        get_range (VSlice [a; b; c; d]) (Some 0) (Some 1) = Ok (VSlice [a; b])
        /\ get_range (VSlice [a; b; c; d]) None (Some 2) = Ok (VSlice [a; b; c])).
Proof.
  intros Hf Ht HL L f t.
  assert (HL' : 0 <= L <= max_int) by (unfold L, length in *; lia).
  pose proof (from_resolved L frm HL' Hf) as Ef.
  pose proof (to_resolved L to HL' Ht) as Et. cbv zeta in Et.
  fold f in Ef. fold t in Et.
  split; [| split; [| split; [| intros a b c d; split; reflexivity]]];
    unfold get_range; fold L; rewrite Ef.
  - intros Hout.
    replace ((f <? 0) || (L <=? f)) with true; [reflexivity |].
    symmetry. apply orb_true_iff. destruct Hout; [left | right]; lia.
  - intros Hin Hout.
    replace ((f <? 0) || (L <=? f)) with false
      by (symmetry; apply orb_false_iff; split; lia).
    match goal with |- context [(?u <? 0) || (L <? ?u)] =>
      replace ((u <? 0) || (L <? u)) with true; [reflexivity |] end.
    symmetry. apply orb_true_iff. destruct Et as [-> | [Hneg _]]; [| left; lia].
    destruct Hout; [left | right]; lia.
  - intros Hin Htin Hle.
    replace ((f <? 0) || (L <=? f)) with false
      by (symmetry; apply orb_false_iff; split; lia).
    destruct Et as [-> | [_ Hbig]]; [| lia].
    replace ((t <? 0) || (L <? t)) with false
      by (symmetry; apply orb_false_iff; split; lia).
    unfold reflect_Slice. fold L.
    replace ((0 <=? f) && (f <=? t) && (t <=? L)) with true; [reflexivity |].
    symmetry. repeat (apply andb_true_iff; split); lia.
Qed.

Lemma get_range_resolves_bounds_witness :
  (is_int (Some 3) /\ is_int (Some (-1))
   /\ length [VInt 1; VInt 2; VInt 3; VInt 4; VInt 5] <= max_int)
  /\ get_range (VSlice [VInt 1; VInt 2; VInt 3; VInt 4; VInt 5]) (Some 3) (Some (-1))
     = Ok (VSlice [VInt 4; VInt 5]).
Proof.
  assert (H1 : is_int (Some 3)) by (split; discriminate).
  assert (H2 : is_int (Some (-1))) by (split; discriminate).
  assert (H3 : length [VInt 1; VInt 2; VInt 3; VInt 4; VInt 5] <= max_int)
    by discriminate.
  split; [repeat split; assumption |].
  destruct (get_range_resolves_bounds
              [VInt 1; VInt 2; VInt 3; VInt 4; VInt 5] (Some 3) (Some (-1)) H1 H2 H3)
    as (_ & _ & H & _).
  apply H; cbn; lia.
Defined.

(** C5 as stated fails: on an array of four elements the range [[:2]]
    yields three elements, not the first two. *)
Lemma open_from_range_yields_three :
  get_range (VSlice [VInt 1; VInt 2; VInt 3; VInt 4]) None (Some 2)
  = Ok (VSlice [VInt 1; VInt 2; VInt 3])
  /\ get_range (VSlice [VInt 1; VInt 2; VInt 3; VInt 4]) None (Some 2)
     <> Ok (VSlice [VInt 1; VInt 2]).
Proof. split; [reflexivity | discriminate]. Qed.

(** ** C2: broadcast over an array, and the filter loop *)

Lemma get_key_slice (xs : list Value) (key : string) :
  get_key (VSlice xs) key = Ok (VSlice (found xs key)).
Proof.
  cbn [get_key]. do 2 f_equal.
  change (found xs key) with ([] ++ found xs key)%list.
  generalize (@nil Value) as res.
  induction xs as [| tmp rest IH]; intros res; cbn [found flat_map].
  - now rewrite app_nil_r.
  - fold (found rest key).
    destruct (get_key tmp key) as [v | e | p |]; rewrite IH; cbn [app];
      try reflexivity.
    unfold go_append. now rewrite <- app_assoc.
Qed.

(** The filter loop stops at the first candidate on which the predicate
    fails to evaluate. *)
Lemma filter_each_aborts (root : Value) (lp op rp : string) (x : Value)
  (post : list Value) (e : error) (pre : list Value) :
  forall res,
    Forall (fun y => exists b, eval_filter y root lp op rp = Ok b) pre ->
    eval_filter x root lp op rp = Err e ->
    filter_each (pre ++ x :: post) root lp op rp res = Err e.
Proof.
  induction pre as [| y pre IH]; intros res Hpre Hx; cbn [app filter_each].
  - now rewrite Hx.
  - inversion Hpre as [| ? ? [b Hb] Hrest]; subst.
    rewrite Hb. cbn [bind]. now apply IH.
Qed.

(** C2, as the code has it.  [get_key] on an array looks the key up in
    every element and keeps the results of the lookups that succeed, in
    order; it never fails.  [get_filtered] is not best-effort: when the
    predicate fails to evaluate on a candidate (an element of an array, a
    value of an object), the loop stops there and [get_filtered] returns
    that error and no result. *)
Theorem broadcast_and_filter_failures (xs : list Value) (key : string)
  (obj : Value) (pre post : list Value) (x root : Value)
  (filter lp op rp : string) (e : error) :
  parse_filter filter = Ok (lp, op, rp) ->
  candidates obj = Some (pre ++ x :: post)%list ->
  Forall (fun y => exists b, eval_filter y root lp op rp = Ok b) pre ->
  eval_filter x root lp op rp = Err e ->
  get_key (VSlice xs) key = Ok (VSlice (found xs key))
  /\ get_filtered obj root filter = Err e.
Proof.
  intros Hp Hc Hpre Hx. split; [apply get_key_slice |].
  unfold get_filtered. rewrite Hp. cbn [bind].
  destruct obj; try discriminate; cbn [candidates] in Hc;
    injection Hc as ->; now apply filter_each_aborts.
Qed.

Lemma broadcast_and_filter_failures_witness :
  (parse_filter "@.x == 8" = Ok ("@.x", "==", "8")
   /\ candidates (VSlice [VMap [("x", VString "8")]; VMap [("x", VString "")];
                          VMap [("x", VString "9")]])
      = Some ([VMap [("x", VString "8")]]
              ++ VMap [("x", VString "")] :: [VMap [("x", VString "9")]])%list
   /\ Forall (fun y => exists b, eval_filter y VNil "@.x" "==" "8" = Ok b)
        [VMap [("x", VString "8")]]
   /\ eval_filter (VMap [("x", VString "")]) VNil "@.x" "==" "8" = Err ErrEval)
  /\ get_key (VSlice [VMap [("a", VInt 1)]; VNil; VMap [("b", VInt 1)]; VMap [("a", VInt 2)]])
       "a" = Ok (VSlice [VInt 1; VInt 2])
  /\ get_filtered (VSlice [VMap [("x", VString "8")]; VMap [("x", VString "")];
                           VMap [("x", VString "9")]])
       VNil "@.x == 8" = Err ErrEval.
Proof.
  assert (H1 : parse_filter "@.x == 8" = Ok ("@.x", "==", "8")) by reflexivity.
  assert (H2 : Forall (fun y => exists b, eval_filter y VNil "@.x" "==" "8" = Ok b)
                 [VMap [("x", VString "8")]]).
  { constructor; [exists true; reflexivity | constructor]. }
  assert (H3 : eval_filter (VMap [("x", VString "")]) VNil "@.x" "==" "8" = Err ErrEval)
    by reflexivity.
  split; [repeat split; assumption |].
  exact (broadcast_and_filter_failures
           [VMap [("a", VInt 1)]; VNil; VMap [("b", VInt 1)]; VMap [("a", VInt 2)]] "a"
           (VSlice [VMap [("x", VString "8")]; VMap [("x", VString "")];
                    VMap [("x", VString "9")]])
           [VMap [("x", VString "8")]] [VMap [("x", VString "9")]]
           (VMap [("x", VString "")]) VNil "@.x == 8" "@.x" "==" "8" ErrEval
           H1 eq_refl H2 H3).
Defined.

(** C2 as stated fails for [get_filtered]: one candidate on which the
    predicate cannot be evaluated makes the whole call fail, although the
    predicate holds of the first candidate; with the operator [=~] the call
    fails on the first candidate. *)
Lemma get_filtered_aborts_on_failure :
  get_filtered (VSlice [VMap [("x", VString "8")]; VMap [("x", VString "")];
                        VMap [("x", VString "9")]]) VNil "@.x == 8"
  = Err ErrEval
  /\ eval_filter (VMap [("x", VString "8")]) VNil "@.x" "==" "8" = Ok true
  /\ get_filtered (VSlice [VMap [("x", VString "8")]]) VNil "@.x =~ /8/"
     = Err ErrNotImplemented.
Proof. repeat split. Qed.

(** ** C3: the comparison rule *)

(** Only a string is printed by [%s] as a text of digits and dots. *)
Lemma isNumber_only_strings (v : Value) :
  isNumber (Sprint true v) = true -> exists s, v = VString s.
Proof.
  destruct v as [| b | n | t | s | xs | kvs]; cbn; try discriminate.
  intros _. now exists s.
Qed.

(** C3 does not hold of the code.  [cmp_any] tests the texts printed
    under [%s], and under [%s] a number is printed as [%!s(int=20)] or
    [%!s(float64=8.95)]: a numeric operand is never compared as a number.
    The int 20 and the float 8.95 are both found greater than the text
    "100", respectively "10", by the order of strings; two strings of
    digits are compared as numbers. *)
Theorem numbers_are_compared_as_text :
  (forall v, isNumber (Sprint true v) = true -> exists s, v = VString s)
  /\ cmp_any (VInt 20) (VString "100") ">" = Ok true
  /\ cmp_any (VFloat "8.95") (VString "10") ">" = Ok true
  /\ cmp_any (VString "20") (VString "100") ">" = Ok false.
Proof.
  split; [exact isNumber_only_strings |].
  repeat split.
Qed.

(** ** C7: quoted member names *)

(** C7 does not hold of the code.  The tokenizer has no notion of a
    quote: the quote characters stay in the token and a dot between quotes
    ends a token.  (The text after an unterminated quote is passed on with
    its quote, as the claim says.) *)
Theorem quotes_stay_in_tokens :
  tokenize ("$." ++ quoted "col") = Ok ["$"; quoted "col"]
  /\ tokenize ("$." ++ quoted "name with spaces") = Ok ["$"; quoted "name with spaces"]
  /\ tokenize ("$." ++ quoted "col.with.dots")
     = Ok ["$"; str quote ++ "col"; "with"; "dots" ++ str quote]
  /\ tokenize ("$." ++ str quote ++ "unterminated") = Ok ["$"; str quote ++ "unterminated"].
Proof. repeat split. Qed.

(** ** C8: malformed range bounds *)

(** C8 does not hold of the code for the upper bound.  A malformed lower
    bound is read as open and no error is returned, because the [err] of
    the first [Atoi] is overwritten by the second; a malformed (or empty)
    upper bound is read as open too, but the [err] of its [Atoi] is
    returned with the Range operation. *)
Theorem malformed_upper_bound_reports_error :
  parse_token "book[abc:2]" = Ok (Parsed "range" "book" (ArgsRange None (Some 2)) None)
  /\ parse_token "book[2:abc]"
     = Ok (Parsed "range" "book" (ArgsRange (Some 2) None)
             (Some (NumError "abc" ErrSyntax)))
  /\ parse_token "book[-2:]"
     = Ok (Parsed "range" "book" (ArgsRange (Some (-2)) None)
             (Some (NumError "" ErrSyntax))).
Proof. repeat split. Qed.

(** ** C4: the root of [$.] operands *)

Lemma get_key_total (obj : Value) (key : string) :
  (exists v, get_key obj key = Ok v) \/ (exists e, get_key obj key = Err e).
Proof.
  destruct obj as [| b | n | t | s | xs | kvs];
    try (right; eexists; reflexivity).
  - left. rewrite get_key_slice. eexists; reflexivity.
  - cbn [get_key]. destruct (MapIndex kvs key);
      [left | right]; eexists; reflexivity.
Qed.

(** The predicate [$.k] asks whether the root has a non-nil entry [k],
    whatever the candidate. *)
Lemma eval_filter_root_exists (tmp root : Value) :
  eval_filter tmp root "$.k" "exists" "" = Ok (present root "k").
Proof.
  assert (E : eval_filter tmp root "$.k" "exists" ""
              = (v <- resolved (x <- get_key root "k" ;; Ok x) ;; Ok (not_nil v)))
    by reflexivity.
  rewrite E. unfold present.
  destruct (get_key_total root "k") as [[v ->] | [e ->]]; reflexivity.
Qed.

Lemma filter_each_const (root : Value) (lp op rp : string) (b : bool) :
  (forall tmp, eval_filter tmp root lp op rp = Ok b) ->
  forall xs res,
    filter_each xs root lp op rp res = Ok (res ++ if b then xs else [])%list.
Proof.
  intros H. induction xs as [| x xs IH]; intros res; cbn [filter_each].
  - destruct b; now rewrite app_nil_r.
  - rewrite H. cbn [bind]. rewrite IH. destruct b; [| reflexivity].
    unfold go_append. now rewrite <- app_assoc.
Qed.

(** C4, as the code has it.  [JsonPathLookup] walks the copy of the
    document, and hands every filter segment its own argument [obj], the
    caller's object, as the root of the [$.] operands.  For the path
    [$.items[?($.k)]] the candidates come from the copy and the entry [k] is
    looked up in [obj]. *)
Theorem filter_root_is_the_argument (dc : Value -> Value) (obj : Value)
  (jpath s0 : string) (steps : list string) (items : list Value) :
  tokenize jpath = Ok (s0 :: steps) ->
  get_key (dc obj) "items" = Ok (VSlice items) ->
  JsonPathLookup dc obj jpath = lookup_loop obj (dc obj) steps
  /\ (forall xobj s key filter,
        parse_token s = Ok (Parsed "filter" key (ArgsString filter) None) ->
        lookup_step obj xobj s
        = (x <- get_key xobj key ;; unchecked (get_filtered x obj filter)))
  /\ JsonPathLookup dc obj "$.items[?($.k)]"
     = Ok (VSlice (if present obj "k" then items else [])).
Proof.
  intros Htok Hitems. split; [| split].
  - now apply JsonPathLookup_tokens with (s0 := s0).
  - intros xobj s key filter Hs. unfold lookup_step. rewrite Hs. reflexivity.
  - rewrite (JsonPathLookup_tokens dc obj "$.items[?($.k)]" "$" ["items[?($.k)]"]
               eq_refl).
    cbn [lookup_loop].
    assert (E : lookup_step obj (dc obj) "items[?($.k)]"
                = (x <- get_key (dc obj) "items" ;;
                   unchecked (get_filtered x obj "$.k"))) by reflexivity.
    rewrite E, Hitems. cbn [bind].
    assert (F : get_filtered (VSlice items) obj "$.k"
                = filter_each items obj "$.k" "exists" "" []) by reflexivity.
    rewrite F, (filter_each_const obj "$.k" "exists" "" (present obj "k"))
      by (intros tmp; apply eval_filter_root_exists).
    reflexivity.
Qed.

Lemma filter_root_is_the_argument_witness :
  (tokenize "$.items[?($.k)]" = Ok ["$"; "items[?($.k)]"]
   /\ get_key (structural_copy (VMap [("items", VSlice [VInt 1; VInt 2]); ("k", VInt 0)]))
        "items" = Ok (VSlice [VInt 1; VInt 2]))
  /\ JsonPathLookup structural_copy
       (VMap [("items", VSlice [VInt 1; VInt 2]); ("k", VInt 0)]) "$.items[?($.k)]"
     = Ok (VSlice [VInt 1; VInt 2]).
Proof.
  split; [split; reflexivity |].
  exact (proj2 (proj2
           (filter_root_is_the_argument structural_copy
              (VMap [("items", VSlice [VInt 1; VInt 2]); ("k", VInt 0)])
              "$.items[?($.k)]" "$" ["items[?($.k)]"] [VInt 1; VInt 2]
              eq_refl eq_refl))).
Defined.

(** C4 as stated fails: when the copy lacks the entry [k] that the
    caller's object has, the predicate [$.k] still holds, so it is the
    caller's object that is read, where the evaluator of the claim reads the
    copy and selects nothing. *)
Lemma filter_reads_the_callers_object :
  JsonPathLookup (copy_without "k")
    (VMap [("items", VSlice [VInt 1]); ("k", VInt 0)]) "$.items[?($.k)]"
  = Ok (VSlice [VInt 1])
  /\ JsonPathLookup_clone_root (copy_without "k")
       (VMap [("items", VSlice [VInt 1]); ("k", VInt 0)]) "$.items[?($.k)]"
     = Ok (VSlice []).
Proof. split; reflexivity. Qed.

(** * Further properties of the code *)

(** ** Dotted paths of plain member names *)







Lemma substring_all (q : string) : String.substring 0 (String.length q) q = q.
Proof.
  induction q as [| c q IH]; cbn; [reflexivity | now rewrite IH].
Qed.




Lemma slice_value (s : string) (lo hi : Z) :
  0 <= lo -> lo <= hi -> hi <= len s ->
  slice s lo hi = Ok (String.substring (Z.to_nat lo) (Z.to_nat (hi - lo)) s).
Proof.
  intros H1 H2 H3. unfold slice.
  replace ((0 <=? lo) && (lo <=? hi) && (hi <=? len s)) with true; [reflexivity |].
  symmetry. repeat (apply andb_true_iff; split); lia.
Qed.













(** ** Runs of dots *)





(** ** Indexing *)

Lemma nth_error_defined (xs : list Value) (i : Z) :
  0 <= i < length xs -> exists v, nth_error xs (Z.to_nat i) = Some v.
Proof.
  intros H. destruct (nth_error xs (Z.to_nat i)) as [v |] eqn:E; [now exists v |].
  apply nth_error_None in E. unfold length in H. lia.
Qed.

Lemma get_idx_cases (xs : list Value) (i : Z) :
  length xs <= max_int -> min_int <= i <= max_int ->
  (0 <= i < length xs ->
   exists v, nth_error xs (Z.to_nat i) = Some v /\ get_idx (VSlice xs) i = Ok v)
  /\ (- length xs <= i < 0 ->
      exists v, nth_error xs (Z.to_nat (length xs + i)) = Some v
                /\ get_idx (VSlice xs) i = Ok v
                /\ get_idx (VSlice xs) (length xs + i) = Ok v)
  /\ (length xs <= i \/ i < - length xs ->
      get_idx (VSlice xs) i = Err (ErrIndexRange (length xs) i)).
Proof.
  intros HL Hi.
  assert (H0 : 0 <= length xs) by (unfold length; lia).
  assert (Hpos : forall j, 0 <= j < length xs ->
                 exists v, nth_error xs (Z.to_nat j) = Some v
                           /\ get_idx (VSlice xs) j = Ok v).
  { intros j Hj. destruct (nth_error_defined xs j Hj) as [v Hv].
    exists v. split; [exact Hv |]. unfold get_idx.
    replace (0 <=? j) with true by (symmetry; apply Z.leb_le; lia).
    replace (length xs <=? j) with false by (symmetry; apply Z.leb_gt; lia).
    now rewrite Hv. }
  split; [exact (Hpos i) | split].
  - intros Hneg. destruct (Hpos (length xs + i)) as (v & Hv & Hg); [lia |].
    exists v. repeat split; try assumption.
    unfold get_idx.
    replace (0 <=? i) with false by (symmetry; apply Z.leb_gt; lia).
    unfold add. rewrite wrap_small by (unfold min_int, max_int in *; lia).
    replace (length xs + i <? 0) with false by (symmetry; apply Z.ltb_ge; lia).
    now rewrite Hv.
  - intros Hout. unfold get_idx. destruct (Z.leb_spec 0 i).
    + replace (length xs <=? i) with true by (symmetry; apply Z.leb_le; lia).
      reflexivity.
    + unfold add. rewrite wrap_small by (unfold min_int, max_int in *; lia).
      replace (length xs + i <? 0) with true by (symmetry; apply Z.ltb_lt; lia).
      reflexivity.
Qed.

(** X4.  On an array of length [L], [get_idx] returns the element at [i]
    for [0 <= i < L], the element at [L + i] for [-L <= i < 0] (so [-1] is
    the last element), and an out-of-range error that carries [L] and [i]
    for every other index; it never panics on an array. *)
Theorem get_idx_bounds (xs : list Value) (i : Z) :
  length xs <= max_int -> min_int <= i <= max_int ->
  (0 <= i < length xs ->
   exists v, nth_error xs (Z.to_nat i) = Some v /\ get_idx (VSlice xs) i = Ok v)
  /\ (- length xs <= i < 0 ->
      exists v, nth_error xs (Z.to_nat (length xs + i)) = Some v
                /\ get_idx (VSlice xs) i = Ok v
                /\ get_idx (VSlice xs) (length xs + i) = Ok v)
  /\ (length xs <= i \/ i < - length xs ->
      get_idx (VSlice xs) i = Err (ErrIndexRange (length xs) i)).
Proof. exact (get_idx_cases xs i). Qed.

Lemma get_idx_bounds_witness :
  (length [VInt 1; VInt 2; VInt 3; VInt 4] <= max_int /\ min_int <= -1 <= max_int)
  /\ get_idx (VSlice [VInt 1; VInt 2; VInt 3; VInt 4]) (-1) = Ok (VInt 4)
  /\ get_idx (VSlice [VInt 1; VInt 2; VInt 3; VInt 4]) 4 = Err (ErrIndexRange 4 4).
Proof.
  assert (H1 : length [VInt 1; VInt 2; VInt 3; VInt 4] <= max_int) by discriminate.
  assert (H2 : min_int <= -1 <= max_int) by (split; discriminate).
  split; [split; assumption |].
  assert (H3 : min_int <= 4 <= max_int) by (split; discriminate).
  split.
  - destruct (get_idx_bounds [VInt 1; VInt 2; VInt 3; VInt 4] (-1) H1 H2)
      as (_ & H & _).
    destruct H as (v & Hv & Hg & _); [cbn; lia |].
    cbn in Hv. injection Hv as <-. exact Hg.
  - destruct (get_idx_bounds [VInt 1; VInt 2; VInt 3; VInt 4] 4 H1 H3)
      as (_ & _ & H).
    apply H. cbn. lia.
Defined.

Lemma get_idx_element (xs : list Value) (i : Z) :
  length xs <= max_int -> in_range (length xs) i ->
  get_idx (VSlice xs) i = Ok (element xs i).
Proof.
  intros HL Hi. unfold in_range in Hi.
  assert (H0 : 0 <= length xs) by (unfold length; lia).
  assert (Hint : min_int <= i <= max_int) by (unfold min_int, max_int in *; lia).
  destruct (get_idx_cases xs i HL Hint) as (Hpos & Hneg & _).
  unfold element. destruct (Z.ltb_spec i 0).
  - destruct Hneg as (v & Hv & Hg & _); [lia |].
    rewrite Hg. f_equal. symmetry. now apply nth_error_nth.
  - destruct Hpos as (v & Hv & Hg); [lia |].
    rewrite Hg. f_equal. symmetry. now apply nth_error_nth.
Qed.

Lemma index_each_all (xs : list Value) (HL : length xs <= max_int) (js : list Z) :
  forall res,
    Forall (in_range (length xs)) js ->
    index_each (VSlice xs) js res = Ok (res ++ map (element xs) js)%list.
Proof.
  induction js as [| i js IH]; intros res H; cbn [index_each map].
  - now rewrite app_nil_r.
  - inversion H as [| ? ? Hi Hjs]; subst.
    rewrite get_idx_element by assumption. cbn [bind].
    rewrite IH by assumption. unfold go_append. now rewrite <- app_assoc.
Qed.

Lemma index_each_first_failure (xs : list Value) (HL : length xs <= max_int)
  (i : Z) (post : list Z) (e : error) (pre : list Z) :
  forall res,
    Forall (in_range (length xs)) pre ->
    get_idx (VSlice xs) i = Err e ->
    index_each (VSlice xs) (pre ++ i :: post) res = Err e.
Proof.
  induction pre as [| j pre IH]; intros res Hpre Hi; cbn [app index_each].
  - now rewrite Hi.
  - inversion Hpre as [| ? ? Hj Hrest]; subst.
    rewrite get_idx_element by assumption. cbn [bind]. now apply IH.
Qed.

(** X5.  A segment with several indexes, applied to an array found under
    its key, returns the selected elements in the order of the request
    (an index may occur more than once); the first index that is out of
    range gives the error of the segment. *)
Theorem multiple_index_in_request_order (obj xobj : Value) (s key : string)
  (i j : Z) (js : list Z) (xs : list Value) :
  parse_token s = Ok (Parsed "idx" key (ArgsInts (i :: j :: js)) None) ->
  get_key xobj key = Ok (VSlice xs) ->
  length xs <= max_int ->
  (Forall (in_range (length xs)) (i :: j :: js) ->
   lookup_step obj xobj s = Ok (VSlice (map (element xs) (i :: j :: js))))
  /\ (forall pre k post,
        i :: j :: js = (pre ++ k :: post)%list ->
        Forall (in_range (length xs)) pre ->
        min_int <= k <= max_int ->
        length xs <= k \/ k < - length xs ->
        lookup_step obj xobj s = Err (ErrIndexRange (length xs) k)).
Proof.
  intros Hp Hk HL.
  assert (E : lookup_step obj xobj s
              = (res <- index_each (VSlice xs) (i :: j :: js) [] ;; Ok (VSlice res))).
  { unfold lookup_step. rewrite Hp. cbn [bind p_op p_key p_args].
    change ("idx" =? "key")%string with false. change ("idx" =? "idx")%string with true.
    cbv iota. rewrite Hk. cbn [bind].
    replace (1 <? length (i :: j :: js)) with true; [reflexivity |].
    symmetry. apply Z.ltb_lt. unfold length. cbn [List.length]. lia. }
  split.
  - intros Hall. rewrite E, index_each_all by assumption. reflexivity.
  - intros pre k post Hsplit Hpre Hint Hout. rewrite E, Hsplit.
    rewrite (index_each_first_failure xs HL k post (ErrIndexRange (length xs) k));
      try assumption; [reflexivity |].
    now apply (get_idx_cases xs k HL Hint).
Qed.

Lemma multiple_index_in_request_order_witness :
  (parse_token "book[1,0,1]" = Ok (Parsed "idx" "book" (ArgsInts [1; 0; 1]) None)
   /\ get_key (VMap [("book", VSlice [VInt 10; VInt 20])]) "book"
      = Ok (VSlice [VInt 10; VInt 20])
   /\ length [VInt 10; VInt 20] <= max_int
   /\ Forall (in_range (length [VInt 10; VInt 20])) [1; 0; 1])
  /\ lookup_step VNil (VMap [("book", VSlice [VInt 10; VInt 20])]) "book[1,0,1]"
     = Ok (VSlice [VInt 20; VInt 10; VInt 20]).
Proof.
  assert (H1 : parse_token "book[1,0,1]"
               = Ok (Parsed "idx" "book" (ArgsInts [1; 0; 1]) None)) by reflexivity.
  assert (H2 : get_key (VMap [("book", VSlice [VInt 10; VInt 20])]) "book"
               = Ok (VSlice [VInt 10; VInt 20])) by reflexivity.
  assert (H3 : length [VInt 10; VInt 20] <= max_int) by discriminate.
  assert (H4 : Forall (in_range (length [VInt 10; VInt 20])) [1; 0; 1]).
  { repeat constructor; discriminate. }
  split; [repeat split; assumption |].
  exact (proj1 (multiple_index_in_request_order VNil _ _ _ 1 0 [1] _ H1 H2 H3) H4).
Defined.

(** ** Bracket segments on null *)

(** X6.  A bracket segment whose key leads to null makes the lookup
    panic: [get_idx], [get_range] and [get_filtered] ask the nil
    [reflect.Type] for its kind.  (A key segment on null returns
    [ErrGetFromNullObj] instead.) *)
Theorem bracket_on_null_panics (dc : Value -> Value) (obj : Value) :
  get_key (dc obj) "a" = Ok VNil ->
  (forall xobj s p,
      parse_token s = Ok p -> get_key xobj (p_key p) = Ok VNil ->
      (forall i js, p_op p = "idx" -> p_args p = ArgsInts (i :: js) ->
                    lookup_step obj xobj s = Panic PanicNilType)
      /\ (forall frm to, p_op p = "range" -> p_args p = ArgsRange frm to ->
                         lookup_step obj xobj s = Panic PanicNilType)
      /\ (forall f r, p_op p = "filter" -> p_args p = ArgsString f ->
                      parse_filter f = Ok r ->
                      lookup_step obj xobj s = Panic PanicNilType))
  /\ JsonPathLookup dc obj "$.a[0]" = Panic PanicNilType
  /\ JsonPathLookup dc obj "$.a[0,1]" = Panic PanicNilType
  /\ JsonPathLookup dc obj "$.a[0:1]" = Panic PanicNilType
  /\ JsonPathLookup dc obj "$.a[*]" = Panic PanicNilType
  /\ JsonPathLookup dc obj "$.a[?(@.x)]" = Panic PanicNilType.
Proof.
  intros Hnull.
  assert (G : forall xobj s p,
      parse_token s = Ok p -> get_key xobj (p_key p) = Ok VNil ->
      (forall i js, p_op p = "idx" -> p_args p = ArgsInts (i :: js) ->
                    lookup_step obj xobj s = Panic PanicNilType)
      /\ (forall frm to, p_op p = "range" -> p_args p = ArgsRange frm to ->
                         lookup_step obj xobj s = Panic PanicNilType)
      /\ (forall f r, p_op p = "filter" -> p_args p = ArgsString f ->
                      parse_filter f = Ok r ->
                      lookup_step obj xobj s = Panic PanicNilType)).
  { intros xobj s p Hp Hk. unfold lookup_step. rewrite Hp. cbn [bind].
    repeat split.
    - intros i js Hop Hargs. rewrite Hop, Hargs, Hk. cbn [bind].
      change ("idx" =? "key")%string with false. change ("idx" =? "idx")%string with true.
      cbv iota. destruct js as [| j js]; [reflexivity |].
      replace (1 <? length (i :: j :: js)) with true; [reflexivity |].
      symmetry. apply Z.ltb_lt. unfold length. cbn [List.length]. lia.
    - intros frm to Hop Hargs. rewrite Hop, Hargs, Hk. reflexivity.
    - intros f [[lp op] rp] Hop Hargs Hf. rewrite Hop, Hargs, Hk. cbn [bind].
      change ("filter" =? "key")%string with false.
      change ("filter" =? "idx")%string with false.
      change ("filter" =? "range")%string with false.
      change ("filter" =? "filter")%string with true. cbv iota.
      unfold get_filtered. rewrite Hf. reflexivity. }
  split; [exact G |].
  assert (P : forall jpath s p,
             tokenize jpath = Ok ["$"; s] -> parse_token s = Ok p -> p_key p = "a" ->
             lookup_step obj (dc obj) s = Panic PanicNilType ->
             JsonPathLookup dc obj jpath = Panic PanicNilType).
  { intros jpath s p Ht Hp Hkey Hstep.
    rewrite (JsonPathLookup_tokens dc obj jpath "$" [s] Ht).
    cbn [lookup_loop]. now rewrite Hstep. }
  repeat split.
  - apply (P _ "a[0]" (Parsed "idx" "a" (ArgsInts [0]) None)); try reflexivity.
    now apply (G (dc obj) "a[0]" _ eq_refl Hnull) with (i := 0) (js := []).
  - apply (P _ "a[0,1]" (Parsed "idx" "a" (ArgsInts [0; 1]) None)); try reflexivity.
    now apply (G (dc obj) "a[0,1]" _ eq_refl Hnull) with (i := 0) (js := [1]).
  - apply (P _ "a[0:1]" (Parsed "range" "a" (ArgsRange (Some 0) (Some 1)) None));
      try reflexivity.
    now apply (G (dc obj) "a[0:1]" _ eq_refl Hnull) with (frm := Some 0) (to := Some 1).
  - apply (P _ "a[*]" (Parsed "range" "a" (ArgsRange None None) None)); try reflexivity.
    now apply (G (dc obj) "a[*]" _ eq_refl Hnull) with (frm := @None Z) (to := @None Z).
  - apply (P _ "a[?(@.x)]" (Parsed "filter" "a" (ArgsString "@.x") None));
      try reflexivity.
    now apply (G (dc obj) "a[?(@.x)]" _ eq_refl Hnull) with (f := "@.x")
                                                           (r := ("@.x", "exists", "")).
Qed.

Lemma bracket_on_null_panics_witness :
  get_key (structural_copy (VMap [("a", VNil)])) "a" = Ok VNil
  /\ JsonPathLookup structural_copy (VMap [("a", VNil)]) "$.a[0]" = Panic PanicNilType.
Proof.
  split; [reflexivity |].
  exact (proj1 (proj2 (bracket_on_null_panics structural_copy (VMap [("a", VNil)])
                         eq_refl))).
Defined.

(** ** Ranges: the empty array, the whole array, inverted bounds *)

(** X7.  On the empty array every range is an error about [from], the
    wildcard [[*]] included: the lower bound can never satisfy
    [0 <= from < 0]. *)
Theorem get_range_empty_array (dc : Value -> Value) (obj : Value) (frm to : option Z) :
  is_int frm ->
  get_key (dc obj) "a" = Ok (VSlice []) ->
  get_range (VSlice []) frm to = Err (ErrFromRange 0 frm)
  /\ JsonPathLookup dc obj "$.a[*]" = Err (ErrFromRange 0 None)
  /\ JsonPathLookup dc obj "$.a[0:]" = Err (ErrFromRange 0 (Some 0)).
Proof.
  intros Hf Hk. split; [| split].
  - unfold get_range. change (length (@nil Value)) with 0.
    destruct frm as [fv |]; [| reflexivity]. cbn in Hf.
    destruct (Z.ltb_spec fv 0).
    + unfold add. rewrite wrap_small by (unfold min_int, max_int in *; lia).
      replace ((0 + fv <? 0) || (0 <=? 0 + fv)) with true; [reflexivity |].
      symmetry. apply orb_true_iff. left. apply Z.ltb_lt. lia.
    + replace ((fv <? 0) || (0 <=? fv)) with true; [reflexivity |].
      symmetry. apply orb_true_iff. right. apply Z.leb_le. lia.
  - rewrite (JsonPathLookup_tokens dc obj "$.a[*]" "$" ["a[*]"] eq_refl).
    cbn [lookup_loop].
    assert (E : lookup_step obj (dc obj) "a[*]"
                = (x <- get_key (dc obj) "a" ;; get_range x None None)) by reflexivity.
    now rewrite E, Hk.
  - rewrite (JsonPathLookup_tokens dc obj "$.a[0:]" "$" ["a[0:]"] eq_refl).
    cbn [lookup_loop].
    assert (E : lookup_step obj (dc obj) "a[0:]"
                = (x <- get_key (dc obj) "a" ;; get_range x (Some 0) None))
      by reflexivity.
    now rewrite E, Hk.
Qed.

Lemma get_range_empty_array_witness :
  (is_int (Some (-1))
   /\ get_key (structural_copy (VMap [("a", VSlice [])])) "a" = Ok (VSlice []))
  /\ get_range (VSlice []) (Some (-1)) None = Err (ErrFromRange 0 (Some (-1)))
  /\ JsonPathLookup structural_copy (VMap [("a", VSlice [])]) "$.a[*]"
     = Err (ErrFromRange 0 None).
Proof.
  assert (H1 : is_int (Some (-1))) by (split; discriminate).
  split; [split; [exact H1 | reflexivity] |].
  destruct (get_range_empty_array structural_copy (VMap [("a", VSlice [])])
              (Some (-1)) None H1 eq_refl) as (A & B & _).
  split; assumption.
Defined.

(** The outcome of [get_range] on an array, by cases on the resolved
    bounds. *)
Lemma get_range_outcome (xs : list Value) (frm to : option Z) :
  is_int frm -> is_int to -> length xs <= max_int ->
  get_range (VSlice xs) frm to
  = if (resolved_from (length xs) frm <? 0)
       || (length xs <=? resolved_from (length xs) frm)
    then Err (ErrFromRange (length xs) frm)
    else if (resolved_to (length xs) to <? 0)
            || (length xs <? resolved_to (length xs) to)
    then Err (ErrToRange (length xs) to)
    else if resolved_from (length xs) frm <=? resolved_to (length xs) to
    then Ok (VSlice (firstn (Z.to_nat (resolved_to (length xs) to
                                       - resolved_from (length xs) frm))
                       (skipn (Z.to_nat (resolved_from (length xs) frm)) xs)))
    else Panic PanicReflectSlice.
Proof.
  intros Hf Ht HL.
  assert (HL' : 0 <= length xs <= max_int) by (unfold length in *; lia).
  pose proof (from_resolved (length xs) frm HL' Hf) as Ef.
  pose proof (to_resolved (length xs) to HL' Ht) as Et. cbv zeta in Et.
  unfold get_range. rewrite Ef.
  set (f := resolved_from (length xs) frm) in *.
  set (t := resolved_to (length xs) to) in *.
  destruct ((f <? 0) || (length xs <=? f)) eqn:Cf; [reflexivity |].
  apply orb_false_iff in Cf. destruct Cf as [Cf1 Cf2].
  apply Z.ltb_ge in Cf1. apply Z.leb_gt in Cf2.
  destruct Et as [-> | [Hneg Hbig]].
  - destruct ((t <? 0) || (length xs <? t)) eqn:Ct; [reflexivity |].
    apply orb_false_iff in Ct. destruct Ct as [Ct1 Ct2].
    apply Z.ltb_ge in Ct1. apply Z.ltb_ge in Ct2.
    unfold reflect_Slice.
    destruct (Z.leb_spec f t).
    + replace ((0 <=? f) && true && (t <=? length xs)) with true; [reflexivity |].
      symmetry. repeat (apply andb_true_iff; split); try reflexivity; lia.
    + replace ((0 <=? f) && false && (t <=? length xs)) with false; [reflexivity |].
      symmetry. rewrite andb_false_r. reflexivity.
  - match goal with |- context [(?u <? 0) || (length xs <? ?u)] =>
      replace ((u <? 0) || (length xs <? u)) with true
        by (symmetry; apply orb_true_iff; left; apply Z.ltb_lt; lia) end.
    replace ((t <? 0) || (length xs <? t)) with true; [reflexivity |].
    symmetry. apply orb_true_iff. right. apply Z.ltb_lt. lia.
Qed.

Lemma firstn_all_skip0 (xs : list Value) :
  firstn (Z.to_nat (length xs - 0)) (skipn (Z.to_nat 0) xs) = xs.
Proof.
  unfold length. rewrite Z.sub_0_r, Nat2Z.id. cbn [Z.to_nat skipn].
  apply firstn_all.
Qed.

(** X8.  On a non-empty array the ranges [[*]], [[:]], [[0:]] and [[0:-1]]
    all select the whole array: the upper bound [-1] names the last element
    and is included. *)
Theorem get_range_whole_array (xs : list Value) :
  xs <> [] -> length xs <= max_int ->
  get_range (VSlice xs) None None = Ok (VSlice xs)
  /\ get_range (VSlice xs) (Some 0) None = Ok (VSlice xs)
  /\ get_range (VSlice xs) (Some 0) (Some (-1)) = Ok (VSlice xs)
  /\ get_range (VSlice xs) None (Some (length xs - 1)) = Ok (VSlice xs).
Proof.
  intros Hne HL.
  assert (Hpos : 1 <= length xs).
  { destruct xs; [contradiction |]. unfold length. cbn [List.length]. lia. }
  assert (I0 : is_int (Some 0)) by (split; discriminate).
  assert (I1 : is_int (Some (-1))) by (split; discriminate).
  assert (I2 : is_int (Some (length xs - 1)))
    by (cbn; unfold min_int, max_int in *; lia).
  assert (IN : is_int None) by exact I.
  assert (G : forall frm to, is_int frm -> is_int to ->
                resolved_from (length xs) frm = 0 ->
                resolved_to (length xs) to = length xs ->
                get_range (VSlice xs) frm to = Ok (VSlice xs)).
  { intros frm to Hf Ht Ef Et.
    rewrite (get_range_outcome xs frm to Hf Ht HL), Ef, Et.
    replace ((0 <? 0) || (length xs <=? 0)) with false
      by (symmetry; apply orb_false_iff; split; [reflexivity | apply Z.leb_gt; lia]).
    replace ((length xs <? 0) || (length xs <? length xs)) with false
      by (symmetry; apply orb_false_iff; split; apply Z.ltb_ge; lia).
    replace (0 <=? length xs) with true by (symmetry; apply Z.leb_le; lia).
    now rewrite firstn_all_skip0. }
  repeat split; apply G; try assumption; try reflexivity.
  - cbn. lia.
  - cbn. destruct (Z.ltb_spec (length xs - 1) 0); lia.
Qed.

Lemma get_range_whole_array_witness :
  ([VInt 1; VInt 2; VInt 3] <> [] /\ length [VInt 1; VInt 2; VInt 3] <= max_int)
  /\ get_range (VSlice [VInt 1; VInt 2; VInt 3]) (Some 0) (Some (-1))
     = Ok (VSlice [VInt 1; VInt 2; VInt 3]).
Proof.
  assert (H1 : [VInt 1; VInt 2; VInt 3] <> []) by discriminate.
  assert (H2 : length [VInt 1; VInt 2; VInt 3] <= max_int) by discriminate.
  split; [split; assumption |].
  exact (proj1 (proj2 (proj2 (get_range_whole_array [VInt 1; VInt 2; VInt 3] H1 H2)))).
Defined.

(** X9.  When both bounds are within the array but the resolved [from]
    lies after the resolved [to], [get_range] does not return an error:
    [reflect.Value.Slice] panics. *)
Theorem get_range_inverted_bounds_panic (xs : list Value) (frm to : option Z) :
  is_int frm -> is_int to -> length xs <= max_int ->
  0 <= resolved_from (length xs) frm < length xs ->
  0 <= resolved_to (length xs) to <= length xs ->
  resolved_to (length xs) to < resolved_from (length xs) frm ->
  get_range (VSlice xs) frm to = Panic PanicReflectSlice.
Proof.
  intros Hf Ht HL Hfr Hto Hinv.
  rewrite (get_range_outcome xs frm to Hf Ht HL).
  replace ((resolved_from (length xs) frm <? 0)
           || (length xs <=? resolved_from (length xs) frm)) with false
    by (symmetry; apply orb_false_iff; split; [apply Z.ltb_ge | apply Z.leb_gt]; lia).
  replace ((resolved_to (length xs) to <? 0)
           || (length xs <? resolved_to (length xs) to)) with false
    by (symmetry; apply orb_false_iff; split; apply Z.ltb_ge; lia).
  replace (resolved_from (length xs) frm <=? resolved_to (length xs) to) with false
    by (symmetry; apply Z.leb_gt; lia).
  reflexivity.
Qed.

Lemma get_range_inverted_bounds_panic_witness :
  (is_int (Some 3) /\ is_int (Some 1)
   /\ length [VInt 1; VInt 2; VInt 3; VInt 4; VInt 5] <= max_int
   /\ 0 <= resolved_from (length [VInt 1; VInt 2; VInt 3; VInt 4; VInt 5]) (Some 3)
      < length [VInt 1; VInt 2; VInt 3; VInt 4; VInt 5]
   /\ 0 <= resolved_to (length [VInt 1; VInt 2; VInt 3; VInt 4; VInt 5]) (Some 1)
      <= length [VInt 1; VInt 2; VInt 3; VInt 4; VInt 5]
   /\ resolved_to (length [VInt 1; VInt 2; VInt 3; VInt 4; VInt 5]) (Some 1)
      < resolved_from (length [VInt 1; VInt 2; VInt 3; VInt 4; VInt 5]) (Some 3))
  /\ get_range (VSlice [VInt 1; VInt 2; VInt 3; VInt 4; VInt 5]) (Some 3) (Some 1)
     = Panic PanicReflectSlice.
Proof.
  assert (H1 : is_int (Some 3)) by (split; discriminate).
  assert (H2 : is_int (Some 1)) by (split; discriminate).
  assert (H3 : length [VInt 1; VInt 2; VInt 3; VInt 4; VInt 5] <= max_int)
    by discriminate.
  assert (H4 : 0 <= resolved_from (length [VInt 1; VInt 2; VInt 3; VInt 4; VInt 5]) (Some 3)
               < length [VInt 1; VInt 2; VInt 3; VInt 4; VInt 5]) by (cbn; lia).
  assert (H5 : 0 <= resolved_to (length [VInt 1; VInt 2; VInt 3; VInt 4; VInt 5]) (Some 1)
               <= length [VInt 1; VInt 2; VInt 3; VInt 4; VInt 5]) by (cbn; lia).
  assert (H6 : resolved_to (length [VInt 1; VInt 2; VInt 3; VInt 4; VInt 5]) (Some 1)
               < resolved_from (length [VInt 1; VInt 2; VInt 3; VInt 4; VInt 5]) (Some 3))
    by (cbn; lia).
  split; [repeat split; assumption || apply H4 || apply H5 |].
  exact (get_range_inverted_bounds_panic _ _ _ H1 H2 H3 H4 H5 H6).
Defined.

(** ** A bracket segment without a key, applied to an array *)

(** X10.  A bracket segment without a key does not index the current
    array itself: [get_key] is first called with the empty name and
    broadcasts over the elements.  When no element has an entry of the
    empty name, every index is answered with an out-of-range error for
    length 0, so [$[0]] fails on an array of ordinary objects. *)
Theorem index_without_key_on_array (dc : Value -> Value) (obj xobj : Value)
  (xs : list Value) (s : string) (i : Z) :
  dc obj = VSlice xs ->
  found xs "" = [] ->
  parse_token s = Ok (Parsed "idx" "" (ArgsInts [i]) None) ->
  min_int <= i <= max_int ->
  lookup_step xobj (VSlice xs) s = Err (ErrIndexRange 0 i)
  /\ JsonPathLookup dc obj "$[0]" = Err (ErrIndexRange 0 0).
Proof.
  intros Hdc Hfound Hp Hi.
  assert (G : forall o t j,
             parse_token t = Ok (Parsed "idx" "" (ArgsInts [j]) None) ->
             min_int <= j <= max_int ->
             lookup_step o (VSlice xs) t = Err (ErrIndexRange 0 j)).
  { intros o t j Ht Hj. unfold lookup_step. rewrite Ht. cbn [bind p_op p_key p_args].
    change ("idx" =? "key")%string with false. change ("idx" =? "idx")%string with true.
    cbv iota. rewrite get_key_slice, Hfound. cbn [bind].
    change (1 <? length [j]) with false. change (length [j] =? 1) with true.
    cbv iota. cbn [nth_error or_panic bind].
    assert (L0 : length (@nil Value) <= max_int) by discriminate.
    apply (get_idx_cases [] j L0 Hj).
    change (length (@nil Value)) with 0. lia. }
  split; [now apply G |].
  rewrite (JsonPathLookup_tokens dc obj "$[0]" "$" ["[0]"] eq_refl), Hdc.
  cbn [lookup_loop]. rewrite (G obj "[0]" 0 eq_refl) by (split; discriminate).
  reflexivity.
Qed.

Lemma index_without_key_on_array_witness :
  (structural_copy (VSlice [VMap [("test", VFloat "12.34")]; VMap [("test", VFloat "13.34")]])
   = VSlice [VMap [("test", VFloat "12.34")]; VMap [("test", VFloat "13.34")]]
   /\ found [VMap [("test", VFloat "12.34")]; VMap [("test", VFloat "13.34")]] "" = []
   /\ parse_token "[0]" = Ok (Parsed "idx" "" (ArgsInts [0]) None)
   /\ min_int <= 0 <= max_int)
  /\ JsonPathLookup structural_copy
       (VSlice [VMap [("test", VFloat "12.34")]; VMap [("test", VFloat "13.34")]]) "$[0]"
     = Err (ErrIndexRange 0 0).
Proof.
  assert (H : min_int <= 0 <= max_int) by (split; discriminate).
  split; [repeat split; try reflexivity; apply H |].
  exact (proj2 (index_without_key_on_array structural_copy
                  (VSlice [VMap [("test", VFloat "12.34")]; VMap [("test", VFloat "13.34")]])
                  VNil _ "[0]" 0 eq_refl eq_refl eq_refl H)).
Defined.

(** ** The predicate parser on fields *)

Lemma string_app_assoc (a b c : string) : (a ++ b) ++ c = a ++ b ++ c.
Proof. induction a as [| x a IH]; cbn; [reflexivity | now rewrite IH]. Qed.

Lemma string_app_nil_r (a : string) : a ++ "" = a.
Proof. induction a as [| x a IH]; cbn; [reflexivity | now rewrite IH]. Qed.








(** ** What counts as a number *)

Lemma isNumber_loop_spec (s : string) :
  forall d, d = 0 \/ d = 1 ->
    isNumber_loop s d
    = all_chars (fun c => is_digit c || Ascii.eqb c ".") s
      && (Z.of_nat (count_dots s) + d <=? 1).
Proof.
  induction s as [| c s IH]; intros d Hd; cbn [isNumber_loop all_chars count_dots].
  - symmetry. apply Z.leb_le. cbn. lia.
  - destruct (Ascii.eqb_spec c ".") as [-> | Hc].
    + rewrite orb_true_r. cbn [andb].
      destruct Hd as [-> | ->].
      * change (add 0 1) with 1. change (1 <? 1) with false. cbv iota.
        rewrite IH by (now right). f_equal.
        apply eq_true_iff_eq. rewrite !Z.leb_le. lia.
      * change (add 1 1) with 2. change (1 <? 2) with true. cbv iota.
        symmetry. rewrite andb_false_iff. right. apply Z.leb_gt. lia.
    + rewrite orb_false_r. destruct (is_digit c); cbn [andb]; [| reflexivity].
      now apply IH.
Qed.

(** X12.  [isNumber] accepts exactly the texts made of decimal digits and
    at most one dot, wherever the dot stands; the empty text and the text
    of a single dot are accepted, a sign or an exponent is not. *)
Theorem isNumber_digits_and_one_dot (s : string) :
  isNumber s
  = all_chars (fun c => is_digit c || Ascii.eqb c ".") s && (count_dots s <=? 1)%nat
  /\ isNumber "" = true /\ isNumber "." = true
  /\ isNumber ("-" ++ s) = false /\ isNumber ("+" ++ s) = false
  /\ isNumber (s ++ "e5") = false.
Proof.
  assert (G : forall t, isNumber t
                        = all_chars (fun c => is_digit c || Ascii.eqb c ".") t
                          && (count_dots t <=? 1)%nat).
  { intros t. unfold isNumber. rewrite isNumber_loop_spec by (now left). f_equal.
    apply eq_true_iff_eq. rewrite Z.leb_le, Nat.leb_le. lia. }
  split; [apply G | repeat split].
  rewrite G. apply andb_false_iff. left.
  induction s as [| c s IH]; [reflexivity |].
  cbn [String.append all_chars]. rewrite IH. apply andb_false_r.
Qed.

(** ** Errors of a filter *)

(** An operand taken from a path of one plain member name never panics:
    it is the entry, or nil when there is none. *)
Lemma operand_x (tmp root : Value) :
  exists v, operand tmp root "@.x" = Ok v.
Proof.
  assert (E : operand tmp root "@.x" = resolved (x <- get_key tmp "x" ;; Ok x))
    by reflexivity.
  rewrite E. destruct (get_key_total tmp "x") as [[v ->] | [e ->]];
    eexists; reflexivity.
Qed.

Lemma filter_each_first_fails (root : Value) (lp op rp : string) (x : Value)
  (xs : list Value) (e : error) :
  eval_filter x root lp op rp = Err e ->
  filter_each (x :: xs) root lp op rp [] = Err e.
Proof. intros H. cbn [filter_each]. now rewrite H. Qed.

(** X13.  [JsonPathLookup] does not look at the error of [get_filtered]:
    when the predicate does not parse, or fails to evaluate on a
    candidate, the filter segment yields the empty list, the candidates
    selected before are lost, and the lookup goes on.  The operator [=~] always fails to evaluate, so a filter with [=~]
    selects nothing and reports nothing. *)
Theorem filter_errors_are_dropped (obj xobj : Value) (s key f : string)
  (xs : list Value) :
  parse_token s = Ok (Parsed "filter" key (ArgsString f) None) ->
  get_key xobj key = Ok (VSlice xs) ->
  (forall e, parse_filter f = Err e -> lookup_step obj xobj s = Ok (VSlice []))
  /\ (forall lp op rp pre x rest e,
        parse_filter f = Ok (lp, op, rp) -> xs = (pre ++ x :: rest)%list ->
        Forall (fun y => exists b, eval_filter y obj lp op rp = Ok b) pre ->
        eval_filter x obj lp op rp = Err e ->
        lookup_step obj xobj s = Ok (VSlice []))
  /\ (forall tmp root lp rp v,
        operand tmp root lp = Ok v ->
        eval_filter tmp root lp "=~" rp = Err ErrNotImplemented)
  /\ (forall dc items,
        get_key (dc obj) "items" = Ok (VSlice items) ->
        JsonPathLookup dc obj "$.items[?(@.x =~ /a/)]" = Ok (VSlice [])).
Proof.
  intros Hp Hk.
  assert (E : forall o y t k g,
             parse_token t = Ok (Parsed "filter" k (ArgsString g) None) ->
             lookup_step o y t = (x <- get_key y k ;; unchecked (get_filtered x o g))).
  { intros o y t k g Ht. unfold lookup_step. rewrite Ht. reflexivity. }
  assert (R : forall tmp root lp rp v,
             operand tmp root lp = Ok v ->
             eval_filter tmp root lp "=~" rp = Err ErrNotImplemented).
  { intros tmp root lp rp v Hv. unfold eval_filter. rewrite Hv. reflexivity. }
  split; [| split; [| split; [exact R |]]].
  - intros e He. rewrite (E _ _ _ _ _ Hp), Hk. cbn [bind].
    unfold get_filtered. rewrite He. reflexivity.
  - intros lp op rp pre x rest e Hf -> Hpre Hx. rewrite (E _ _ _ _ _ Hp), Hk.
    cbn [bind]. unfold get_filtered. rewrite Hf. cbn [bind].
    now rewrite (filter_each_aborts obj lp op rp x rest e pre [] Hpre Hx).
  - intros dc items Hitems.
    rewrite (JsonPathLookup_tokens dc obj "$.items[?(@.x =~ /a/)]" "$"
               ["items[?(@.x =~ /a/)]"] eq_refl).
    cbn [lookup_loop].
    rewrite (E obj (dc obj) "items[?(@.x =~ /a/)]" "items" "@.x =~ /a/" eq_refl), Hitems.
    cbn [bind].
    assert (F : get_filtered (VSlice items) obj "@.x =~ /a/"
                = filter_each items obj "@.x" "=~" "/a/" []) by reflexivity.
    rewrite F. destruct items as [| it items]; [reflexivity |].
    destruct (operand_x it obj) as [v Hv].
    now rewrite (filter_each_first_fails obj "@.x" "=~" "/a/" it items ErrNotImplemented
                   (R it obj "@.x" "/a/" v Hv)).
Qed.

Lemma filter_errors_are_dropped_witness :
  (parse_token "book[?(@.author =~ /x/)]"
   = Ok (Parsed "filter" "book" (ArgsString "@.author =~ /x/") None)
   /\ get_key (VMap [("book", VSlice [VMap [("author", VString "x")]])]) "book"
      = Ok (VSlice [VMap [("author", VString "x")]]))
  /\ JsonPathLookup structural_copy (VMap [("items", VSlice [VMap [("x", VString "a")]])])
       "$.items[?(@.x =~ /a/)]" = Ok (VSlice []).
Proof.
  split; [split; reflexivity |].
  exact (proj2 (proj2 (proj2
           (filter_errors_are_dropped (VMap [("items", VSlice [VMap [("x", VString "a")]])])
              (VMap [("book", VSlice [VMap [("author", VString "x")]])])
              "book[?(@.author =~ /x/)]" "book" "@.author =~ /x/"
              [VMap [("author", VString "x")]] eq_refl eq_refl)))
           structural_copy [VMap [("x", VString "a")]] eq_refl).
Defined.

(** ** The existence filter *)






(** ** Comparison of texts *)

Lemma lex_string_plain (a : string) :
  forall acc rest,
    plain_text a = true ->
    lex_string (a ++ String quote rest) acc = Lexed (CString (acc ++ a)) rest.
Proof.
  induction a as [| c a IH]; intros acc rest H; cbn [String.append lex_string].
  - replace (Ascii.eqb quote quote) with true by reflexivity.
    now rewrite string_app_nil_r.
  - unfold plain_text in H. cbn [all_chars] in H.
    apply andb_true_iff in H. destruct H as [Hc Ha].
    apply andb_true_iff in Hc. destruct Hc as [Hp Hq].
    apply negb_true_iff in Hq. rewrite Hq, Hp.
    rewrite IH by exact Ha. now rewrite string_app_assoc.
Qed.

Lemma relational_cases (op : string) :
  relational op = true ->
  op = "<" \/ op = "<=" \/ op = "==" \/ op = ">=" \/ op = ">".
Proof.
  unfold relational. intros H.
  repeat (apply orb_true_iff in H; destruct H as [H | H]);
    apply String.eqb_eq in H; auto 6.
Qed.

Lemma lex_operator_relational (op rest : string) :
  relational op = true ->
  lex_operator (" " ++ op ++ " " ++ rest) = Some (op, rest).
Proof.
  intros H.
  destruct (relational_cases op H) as [-> | [-> | [-> | [-> | ->]]]]; reflexivity.
Qed.

Lemma string_compare_refl (s : string) : String.compare s s = Eq.
Proof.
  induction s as [| c s IH]; cbn [String.compare]; [reflexivity |].
  unfold Ascii.compare. now rewrite N.compare_refl.
Qed.

(** X15.  Two texts of printable characters (no double quote, no
    backslash) that are not both numbers are compared as strings, byte by
    byte: the result of [cmp_any] is the relation [op] on their
    lexicographic order, and [==] holds exactly of equal texts. *)
Theorem cmp_any_texts (a b op : string) :
  plain_text a = true -> plain_text b = true -> relational op = true ->
  isNumber a && isNumber b = false ->
  cmp_any (VString a) (VString b) op = Ok (holds op (String.compare a b))
  /\ cmp_any (VString a) (VString b) "==" = Ok (a =? b)%string.
Proof.
  intros Ha Hb Hop Hnum.
  assert (G : forall o, relational o = true ->
                        cmp_any (VString a) (VString b) o
                        = Ok (holds o (String.compare a b))).
  { intros o Ho. unfold cmp_any. fold (relational o). rewrite Ho. cbn [negb].
    cbn [Sprint]. rewrite Hnum.
    unfold types_Eval.
    change (str quote ++ a ++ str quote ++ " " ++ o ++ " " ++ str quote ++ b ++ str quote)
      with (String quote (a ++ String quote (" " ++ o ++ " " ++ String quote (b ++ String quote "")))).
    unfold lex_operand at 1. replace (Ascii.eqb quote quote) with true by reflexivity.
    rewrite lex_string_plain by assumption. cbn [String.append].
    change (String " " (o ++ String " " (String quote (b ++ String quote ""))))
      with (" " ++ o ++ " " ++ String quote (b ++ String quote "")).
    rewrite lex_operator_relational by assumption.
    unfold lex_operand. replace (Ascii.eqb quote quote) with true by reflexivity.
    rewrite lex_string_plain by assumption. cbn [String.append].
    destruct (holds o (String.compare a b)); reflexivity. }
  split; [now apply G |].
  rewrite G by reflexivity. f_equal.
  change (holds "==" (String.compare a b))
    with (match String.compare a b with Eq => true | _ => false end).
  destruct (String.eqb_spec a b) as [-> | N].
  - now rewrite string_compare_refl.
  - destruct (String.compare a b) eqn:C; try reflexivity.
    apply String.compare_eq_iff in C. contradiction.
Qed.

Lemma cmp_any_texts_witness :
  (plain_text "Nigel Rees" = true /\ plain_text "Nigel Rees" = true
   /\ relational "==" = true /\ isNumber "Nigel Rees" && isNumber "Nigel Rees" = false)
  /\ cmp_any (VString "Nigel Rees") (VString "Nigel Rees") "==" = Ok true.
Proof.
  split; [repeat split |].
  exact (proj2 (cmp_any_texts "Nigel Rees" "Nigel Rees" "==" eq_refl eq_refl eq_refl eq_refl)).
Defined.

(** ** The segment parser never panics *)

Lemma index_from_bounds (s sub : string) :
  forall i, strings.index_from i s sub = -1
            \/ i <= strings.index_from i s sub <= i + len s.
Proof.
  induction s as [| c s IH]; intros i; cbn [strings.index_from].
  - destruct (strings.HasPrefix "" sub); [right | left; reflexivity].
    change (len "") with 0. lia.
  - destruct (strings.HasPrefix (String c s) sub).
    + right. pose proof (len_nonneg (String c s)). lia.
    + destruct (IH (i + 1)) as [-> | H]; [now left | right].
      rewrite len_String. lia.
Qed.

Lemma Atoi_total (s : string) :
  (exists n, Atoi s = Ok n) \/ (exists e, Atoi s = Err e).
Proof.
  unfold Atoi.
  destruct (match s with
            | String "-" r => (true, r)
            | String "+" r => (false, r)
            | _ => (false, s)
            end) as [neg body].
  destruct body as [| c body]; [right; eexists; reflexivity |].
  destruct (digits_val 0 (String c body)) as [n |]; [| right; eexists; reflexivity].
  destruct ((min_int <=? (if neg then - n else n)) && ((if neg then - n else n) <=? max_int));
    [left | right]; eexists; reflexivity.
Qed.

Lemma atoi_bound_total (s : string) : exists r, atoi_bound s = Ok r.
Proof.
  unfold atoi_bound.
  destruct (Atoi_total s) as [[n ->] | [e ->]]; eexists; reflexivity.
Qed.

Lemma parse_indexes_total (parts : list string) :
  forall res,
    (exists r, parse_indexes parts res = Ok r
               /\ List.length r = (List.length res + List.length parts)%nat)
    \/ (exists e, parse_indexes parts res = Err e).
Proof.
  induction parts as [| x parts IH]; intros res; cbn [parse_indexes].
  - left. exists res. split; [reflexivity | cbn; lia].
  - destruct (Atoi_total (strings.Trim x " ")) as [[n ->] | [e ->]]; cbn [bind].
    + destruct (IH (go_append res n)) as [(r & -> & Hr) | [e ->]].
      * left. exists r. split; [reflexivity |].
        rewrite Hr. unfold go_append. rewrite length_app. cbn. lia.
      * right. eexists; reflexivity.
    + right. eexists; reflexivity.
Qed.

Lemma Split_nonempty (s : string) (sep : ascii) : strings.Split s sep <> [].
Proof.
  destruct s as [| c s]; cbn [strings.Split]; [discriminate |].
  destruct (Ascii.eqb c sep); [discriminate |].
  destruct (strings.Split s sep); discriminate.
Qed.

Lemma filter_body_length (s : string) :
  strings.HasPrefix s "?(" = true -> strings.HasSuffix s ")" = true -> 3 <= len s.
Proof.
  intros Hp Hs.
  destruct s as [| c1 [| c2 [| c3 r]]].
  - discriminate Hp.
  - cbn in Hp. destruct (Ascii.eqb c1 "?"); discriminate Hp.
  - cbn in Hp, Hs.
    destruct (Ascii.eqb_spec c2 "(") as [E | N];
      [rewrite E in Hs; discriminate Hs |].
    destruct (Ascii.eqb c1 "?"); discriminate Hp.
  - rewrite !len_String. pose proof (len_nonneg r). lia.
Qed.

Lemma parse_token_defined (token : string) :
  exists p, parse_token token = Ok p
            /\ (p_op p = "idx" ->
                exists i js, p_args p = ArgsInts (i :: js) /\ p_err p = None).
Proof.
  unfold parse_token.
  destruct (token =? "$")%string;
    [eexists; split; [reflexivity | intros H; discriminate H] |].
  destruct (token =? "*")%string;
    [eexists; split; [reflexivity | intros H; discriminate H] |].
  destruct (Z.ltb_spec (strings.Index token "[") 0) as [_ | Hidx];
    [eexists; split; [reflexivity | intros H; discriminate H] |].
  assert (Hb : strings.Index token "[" <= len token).
  { unfold strings.Index in *.
    destruct (index_from_bounds token "[" 0) as [E | E]; lia. }
  pose proof (len_nonneg token) as Hl.
  rewrite (slice_value token 0 (strings.Index token "[")) by lia. cbn [bind].
  rewrite (slice_value token (strings.Index token "[") (len token)) by lia. cbn [bind].
  set (key := String.substring (Z.to_nat 0) _ token).
  set (tail := String.substring (Z.to_nat (strings.Index token "[")) _ token).
  destruct (Z.ltb_spec (len tail) 3) as [_ | Ht];
    [eexists; split; [reflexivity | intros H; discriminate H] |].
  rewrite (slice_value tail 1 (len tail - 1)) by lia. cbn [bind].
  set (body := String.substring _ _ tail).
  destruct (strings.Contains body "?").
  { destruct (strings.HasPrefix body "?(") eqn:Hp; cbn [andb];
      [| eexists; split; [reflexivity | intros H; discriminate H]].
    destruct (strings.HasSuffix body ")") eqn:Hs;
      [| eexists; split; [reflexivity | intros H; discriminate H]].
    pose proof (filter_body_length body Hp Hs).
    rewrite (slice_value body 2 (len body - 1)) by lia. cbn [bind].
    eexists; split; [reflexivity | intros H'; discriminate H']. }
  destruct (strings.Contains body ":").
  { destruct (strings.Split body ":") as [| t0 [| t1 [| t2 ts]]];
      try (eexists; split; [reflexivity | intros H; discriminate H]).
    destruct (atoi_bound_total (strings.Trim t0 " ")) as [[f e0] ->].
    destruct (atoi_bound_total (strings.Trim t1 " ")) as [[t e1] ->].
    cbn [bind]. eexists; split; [reflexivity | intros H; discriminate H]. }
  destruct (body =? "*")%string;
    [eexists; split; [reflexivity | intros H; discriminate H] |].
  destruct (parse_indexes_total (strings.Split body ",") []) as [(r & -> & Hr) | [e ->]].
  - eexists; split; [reflexivity |]. intros _. cbn [p_args p_err].
    destruct r as [| i js].
    + exfalso. pose proof (Split_nonempty body ",") as Hne.
      destruct (strings.Split body ","); [contradiction | cbn in Hr; lia].
    + now exists i, js.
  - eexists; split; [reflexivity | intros H; discriminate H].
Qed.

(** X16.  [parse_token] returns its four results for every token: none of
    its slice expressions can go out of bounds.  When the operation is
    [idx], the payload is a non-empty list of integers and there is no
    error, so the evaluator's type assertion to [[]int] cannot fail and
    its branch "cannot index on empty slice" is never taken. *)
Theorem parse_token_total (token : string) :
  exists p, parse_token token = Ok p
            /\ (p_op p = "idx" ->
                exists i js, p_args p = ArgsInts (i :: js) /\ p_err p = None).
Proof. exact (parse_token_defined token). Qed.

(** ** The errors of a lookup *)

Lemma get_key_errors (obj : Value) (key : string) (e : error) :
  get_key obj key = Err e -> lookup_error e = true.
Proof.
  destruct obj as [| b | n | t | s | xs | kvs]; cbn [get_key];
    try (intros H; inversion H; reflexivity).
  destruct (MapIndex kvs key); intros H; inversion H. reflexivity.
Qed.

Lemma get_idx_errors (obj : Value) (i : Z) (e : error) :
  get_idx obj i = Err e -> lookup_error e = true.
Proof.
  destruct obj as [| b | n | t | s | xs | kvs]; cbn [get_idx];
    try (intros H; inversion H; reflexivity).
  destruct (0 <=? i).
  - destruct (length xs <=? i); [intros H; inversion H; reflexivity |].
    destruct (nth_error xs (Z.to_nat i)); discriminate.
  - destruct (add (length xs) i <? 0); [intros H; inversion H; reflexivity |].
    destruct (nth_error xs (Z.to_nat (add (length xs) i))); discriminate.
Qed.

Lemma index_each_errors (xobj : Value) (js : list Z) (e : error) :
  forall res, index_each xobj js res = Err e -> lookup_error e = true.
Proof.
  induction js as [| j js IH]; intros res; cbn [index_each]; [discriminate |].
  destruct (get_idx xobj j) as [v | e' | p |] eqn:E; cbn [bind]; try discriminate.
  - apply IH.
  - intros H. inversion H; subst. now apply (get_idx_errors xobj j).
Qed.

Lemma get_range_errors (obj : Value) (frm to : option Z) (e : error) :
  get_range obj frm to = Err e -> lookup_error e = true.
Proof.
  destruct obj as [| b | n | t | s | xs | kvs]; cbn [get_range];
    try (intros H; inversion H; reflexivity).
  cbv zeta.
  match goal with |- context [if ?c then Err (ErrFromRange _ _) else _] =>
    destruct c; [intros H; inversion H; reflexivity |] end.
  match goal with |- context [if ?c then Err (ErrToRange _ _) else _] =>
    destruct c; [intros H; inversion H; reflexivity |] end.
  match goal with |- context [reflect_Slice ?a ?b ?c] =>
    unfold reflect_Slice; destruct ((0 <=? b) && (b <=? c) && (c <=? length a)) end;
    discriminate.
Qed.

Lemma unchecked_no_error (r : outcome (list Value)) (e : error) :
  unchecked r <> Err e.
Proof. destruct r; discriminate. Qed.

Lemma lookup_step_errors (obj xobj : Value) (s : string) (e : error) :
  lookup_step obj xobj s = Err e -> lookup_error e = true.
Proof.
  unfold lookup_step.
  destruct (parse_token_defined s) as (p & -> & Hidx). cbn [bind].
  destruct (p_op p =? "key")%string; [apply get_key_errors |].
  destruct (p_op p =? "idx")%string eqn:Eidx.
  { apply String.eqb_eq in Eidx. destruct (Hidx Eidx) as (i & js & -> & _).
    destruct (get_key xobj (p_key p)) as [v | e' | q |] eqn:E; cbn [bind];
      try discriminate.
    - destruct (Z.ltb_spec 1 (length (i :: js))) as [_ | L0].
      + destruct (index_each v (i :: js) []) as [r | e' | q |] eqn:F; cbn [bind];
          try discriminate.
        intros H. inversion H; subst. now apply (index_each_errors v (i :: js) e []).
      + destruct (Z.eqb_spec (length (i :: js)) 1) as [_ | L1].
        * cbn [nth_error or_panic bind]. apply get_idx_errors.
        * exfalso. unfold length in *. cbn [List.length] in *. lia.
    - intros H. inversion H; subst. now apply (get_key_errors xobj (p_key p)). }
  destruct (p_op p =? "range")%string.
  { destruct (get_key xobj (p_key p)) as [v | e' | q |] eqn:E; cbn [bind];
      try discriminate.
    - destruct (p_args p); try (intros H; inversion H; reflexivity).
      apply get_range_errors.
    - intros H. inversion H; subst. now apply (get_key_errors xobj (p_key p)). }
  destruct (p_op p =? "filter")%string.
  { destruct (get_key xobj (p_key p)) as [v | e' | q |] eqn:E; cbn [bind];
      try discriminate.
    - destruct (p_args p); try discriminate.
      intros H. now apply unchecked_no_error in H.
    - intros H. inversion H; subst. now apply (get_key_errors xobj (p_key p)). }
  intros H. inversion H. reflexivity.
Qed.

Lemma lookup_loop_errors (obj : Value) (steps : list string) (e : error) :
  forall xobj, lookup_loop obj xobj steps = Err e -> lookup_error e = true.
Proof.
  induction steps as [| s steps IH]; intros xobj; cbn [lookup_loop]; [discriminate |].
  destruct (lookup_step obj xobj s) as [v | e' | q |] eqn:E; cbn [bind];
    try discriminate.
  - apply IH.
  - intros H. inversion H; subst. now apply (lookup_step_errors obj xobj s).
Qed.

(** X17.  Whatever the document and the path, an error returned by
    [JsonPathLookup] is the tokenizer's error about the first character, an
    error of a key access, of an index or of a range, or "expression don't
    support in filter".  The errors of the segment parser ([Atoi], a bracket
    that is too short, more than one colon), of the predicate parser and of
    the comparison are never returned, and neither are "$ or @ should in
    front of path" and "cannot index on empty slice". *)
Theorem lookup_errors (dc : Value -> Value) (obj : Value) (jpath : string) (e : error) :
  JsonPathLookup dc obj jpath = Err e -> lookup_error e = true.
Proof.
  destruct (tokenize_defined jpath) as [[steps Ht] | Ht].
  - destruct steps as [| s0 steps].
    + unfold JsonPathLookup. rewrite Ht. discriminate.
    + rewrite (JsonPathLookup_tokens dc obj jpath s0 steps Ht).
      apply lookup_loop_errors.
  - unfold JsonPathLookup. rewrite Ht. cbn [bind].
    intros H. inversion H. reflexivity.
Qed.

Lemma lookup_errors_witness :
  JsonPathLookup structural_copy json_data "$.store.book[x]" = Err ErrNotSupported
  /\ lookup_error ErrNotSupported = true.
Proof.
  split; [reflexivity |].
  exact (lookup_errors structural_copy json_data "$.store.book[x]" ErrNotSupported
           eq_refl).
Defined.

(** ** The first version of the predicate parser *)






(** ** The tokenizer is total *)

(** X19.  [tokenize] never panics: for every query it returns a token
    list or the error "should start with '$'". *)
Theorem tokenize_total (query : string) :
  (exists steps, tokenize query = Ok steps) \/ tokenize query = Err ErrShouldStart.
Proof. exact (tokenize_defined query). Qed.
